(** * MediaBook backend: the server bootstrap of [src/setupServer.ts]

    A shallow embedding of class [MediaBookServer]: the Express
    middleware stack it installs, the two terminal handlers of
    [globalErrorHandler], and the asynchronous gateway start-up of
    [startServer] / [createSocteIO].

    The Express application is a stack of layers ([app.use] appends);
    a request is dispatched through the stack the way Express's router
    does it.  The asynchronous part is a transition system driven by the
    events the Node.js event loop delivers (promise settlements). *)

From stdpp Require Import base list strings gmap pretty.
From Stdlib Require Import ZArith NArith Lia.

Set Warnings "-register-all".

Local Open Scope Z_scope.
Local Open Scope string_scope.
Local Open Scope list_scope.

(** ** JSON values (what [res.json] sends) *)

Inductive json :=
| JNull
| JBool (b : bool)
| JNum (n : Z)
| JStr (s : string)
| JArr (xs : list json)
| JObj (fields : list (string * json)).



(** ** Errors *)

Module CustomError.

(** One entry of the serialized error list: [{message, field?}]. *)
Record item := { item_message : string; item_field : option string }.

(** Modelled from the spec: class [CustomError] of
    [./shared/globals/helpers/error_handler], which the server imports but
    which is not among the sources.  The spec describes it as an error
    that "carries its own statusCode and a serialization method producing
    the ErrorResponse shape". *)
Record t := {
  statusCode : Z;
  status : string;
  message : string;
  errors : list item
}.

Definition item_json (i : item) : json :=
  JObj (("message", JStr (item_message i)) ::
        match item_field i with
        | Some f => [("field", JStr f)]
        | None => []
        end).

(** Modelled from the spec: method [serializeErrors] of the missing class
    [CustomError]; the wire contract of the spec is
    [{ message, statusCode, status, serializeErrors: [{message, field?}, ...] }]. *)
Definition serializeErrors (e : t) : json :=
  JObj [("message", JStr (message e));
        ("statusCode", JNum (statusCode e));
        ("status", JStr (status e));
        ("serializeErrors", JArr (map item_json (errors e)))].

End CustomError.

(** Whatever can be thrown, rejected or handed to [next(err)].
    [error instanceof CustomError] holds exactly for [ErrCustom]. *)
Inductive thrown :=
| ErrCustom (e : CustomError.t)
| ErrOther (name : string) (detail : string) (httpStatus : option Z).

Definition instanceof_CustomError (error : thrown) : option CustomError.t :=
  match error with
  | ErrCustom e => Some e
  | ErrOther _ _ _ => None
  end.

(** ** The logger [log = config.createLogger('server')] *)

Inductive LogEntry :=
| LogError (error : thrown)
| LogInfo (msg : string).

(** ** Configuration

    [config] comes from [./config], which is not among the sources; it is a
    parameter of everything below.  Its fields are environment strings that
    may be undefined (the source has to write [config.SECRET_KEY_ONE!]). *)
Record Config := {
  SECRET_KEY_ONE : option string;
  SECRET_KEY_TWO : option string;
  NODE_ENV : option string;
  CLIENT_URL : option string;
  REDIS_HOST : option string
}.

Definition SERVER_PORT : Z := 5000.

(** ** Requests and responses *)

Inductive mediaType :=
| ApplicationJson
| FormUrlencoded
| OtherMedia (name : string).

(** The entity a request carries: its media type (as [type-is] classifies
    the Content-Type header) and its length in bytes. *)
Record Entity := {
  entityType : mediaType;
  entityLength : N
}.

Record CookieSessionOptions := {
  cs_name : string;
  cs_keys : list (option string);
  cs_maxAge : Z;
  cs_secure : bool
}.

Record Request := {
  method : string;
  originalUrl : string;
  reqHeaders : gmap string string;
  entity : option Entity;
  (* set by middleware *)
  sessionOptions : option CookieSessionOptions;
  bodyParsed : bool
}.

Record Response := {
  statusCode : Z;
  resHeaders : gmap string string;
  body : option json;
  finished : bool
}.

(** A fresh [ServerResponse]: status 200, nothing written. *)
Definition freshResponse : Response :=
  {| statusCode := 200; resHeaders := ∅; body := None; finished := false |}.

Definition setHeader (k v : string) (r : Response) : Response :=
  {| statusCode := statusCode r;
     resHeaders := <[k := v]> (resHeaders r);
     body := body r;
     finished := finished r |}.

(** [res.status(code)] *)
Definition res_status (code : Z) (r : Response) : Response :=
  {| statusCode := code; resHeaders := resHeaders r;
     body := body r; finished := finished r |}.

(** [res.json(obj)]: sets the content type, writes the body, ends. *)
Definition res_json (obj : json) (r : Response) : Response :=
  {| statusCode := statusCode r;
     resHeaders := <["Content-Type" := "application/json; charset=utf-8"]> (resHeaders r);
     body := Some obj;
     finished := true |}.

(** [res.end()] *)
Definition res_end (r : Response) : Response :=
  {| statusCode := statusCode r; resHeaders := resHeaders r;
     body := body r; finished := true |}.

(** Names of the layers, for the record of which layers a request entered. *)
Inductive layerName :=
| NCookieSession | NHpp | NHelmet | NCors
| NCompression | NJson | NUrlencoded
| NRoute | NAll | NErrorMiddleware.

(** One request/response exchange travelling through the stack, together
    with the server log and the list of layers entered so far (oldest
    first). *)
Record Exchange := {
  req : Request;
  res : Response;
  log : list LogEntry;
  entered : list layerName
}.

Definition with_res (f : Response → Response) (x : Exchange) : Exchange :=
  {| req := req x; res := f (res x); log := log x; entered := entered x |}.

Definition with_req (f : Request → Request) (x : Exchange) : Exchange :=
  {| req := f (req x); res := res x; log := log x; entered := entered x |}.

Definition log_write (e : LogEntry) (x : Exchange) : Exchange :=
  {| req := req x; res := res x; log := log x ++ [e]; entered := entered x |}.

Definition enter (n : layerName) (x : Exchange) : Exchange :=
  {| req := req x; res := res x; log := log x; entered := entered x ++ [n] |}.

(** How a layer hands control back. *)
Inductive signal :=
| Next               (* next() *)
| NextErr (e : thrown)  (* next(err), a throw, or a rejected promise *)
| End.               (* the layer ended the response and called nothing *)

(** ** Small string helpers of the JavaScript runtime *)

Definition upper_ascii (c : Ascii.ascii) : Ascii.ascii :=
  let n := Ascii.N_of_ascii c in
  if ((97 <=? n) && (n <=? 122))%N then Ascii.ascii_of_N (n - 32) else c.

Definition lower_ascii (c : Ascii.ascii) : Ascii.ascii :=
  let n := Ascii.N_of_ascii c in
  if ((65 <=? n) && (n <=? 90))%N then Ascii.ascii_of_N (n + 32) else c.

Fixpoint toUpperCase (s : string) : string :=
  match s with
  | EmptyString => EmptyString
  | String c rest => String (upper_ascii c) (toUpperCase rest)
  end.

Fixpoint toLowerCase (s : string) : string :=
  match s with
  | EmptyString => EmptyString
  | String c rest => String (lower_ascii c) (toLowerCase rest)
  end.

(** [xs.join(sep)] *)
Definition join (sep : string) (xs : list string) : string := String.concat sep xs.

(** The character [?] (code 63), which starts the query of a URL. *)
Definition question_mark : Ascii.ascii := Ascii.ascii_of_N 63.

(** The path of a URL: everything before the first [?]. *)
Fixpoint pathname (url : string) : string :=
  match url with
  | EmptyString => EmptyString
  | String c rest => if Ascii.eqb c question_mark then EmptyString else String c (pathname rest)
  end.

(** ** Third-party middleware the server installs

    The packages below are not part of the repository; each is modelled by
    the part of its documented behaviour that the server's options select. *)

(** *** [bytes]: size strings such as ['50mb'] *)
Module Bytes.

Definition digit (c : Ascii.ascii) : option N :=
  let n := Ascii.N_of_ascii c in
  if ((48 <=? n) && (n <=? 57))%N then Some (n - 48)%N else None.

(** Splits a decimal prefix off [s]: its value (with [acc] as the digits
    read so far), whether a digit was seen, and the rest. *)
Fixpoint number (s : string) (acc : N) (seen : bool) : N * bool * string :=
  match s with
  | EmptyString => (acc, seen, EmptyString)
  | String c rest =>
      match digit c with
      | Some d => number rest (10 * acc + d)%N true
      | None => (acc, seen, s)
      end
  end.

Definition unit_factor (u : string) : option N :=
  let u := toLowerCase u in
  if String.eqb u "" then Some 1%N
  else if String.eqb u "b" then Some 1%N
  else if String.eqb u "kb" then Some (2 ^ 10)%N
  else if String.eqb u "mb" then Some (2 ^ 20)%N
  else if String.eqb u "gb" then Some (2 ^ 30)%N
  else if String.eqb u "tb" then Some (2 ^ 40)%N
  else if String.eqb u "pb" then Some (2 ^ 50)%N
  else None.

(** [bytes.parse]: an integer followed by a unit; [None] is its [null]. *)
Definition parse (s : string) : option N :=
  match number s 0%N false with
  | (n, true, u) =>
      match unit_factor u with
      | Some f => Some (n * f)%N
      | None => None
      end
  | (_, false, _) => None
  end.

End Bytes.

(** *** [body-parser]: [json(options)] and [urlencoded(options)] *)

Record JsonOptions := { json_limit : string }.
Record UrlencodedOptions := { urlencoded_extended : bool; urlencoded_limit : string }.

Definition payloadTooLarge : thrown :=
  ErrOther "PayloadTooLargeError" "request entity too large" (Some 413).

Definition markParsed (r : Request) : Request :=
  {| method := method r; originalUrl := originalUrl r; reqHeaders := reqHeaders r;
     entity := entity r; sessionOptions := sessionOptions r; bodyParsed := true |}.

(** A body parser for the media types [accepts]: requests that were already
    parsed, carry no entity or carry another media type pass untouched;
    otherwise the request is flagged as parsed ([req._body]) and its entity
    is read: an entity longer than the limit is refused with a 413 error
    handed to [next], any other is read into [req.body]. *)
Definition bodyParser (accepts : mediaType → bool) (limit : string)
    (x : Exchange) : Exchange * signal :=
  if bodyParsed (req x) then (x, Next)
  else
    match entity (req x) with
    | None => (x, Next)
    | Some e =>
        if accepts (entityType e) then
          match Bytes.parse limit with
          | Some lim =>
              if (lim <? entityLength e)%N
              then (with_req markParsed x, NextErr payloadTooLarge)
              else (with_req markParsed x, Next)
          | None => (with_req markParsed x, Next)
          end
        else (x, Next)
    end.

Definition isJson (m : mediaType) : bool :=
  match m with ApplicationJson => true | _ => false end.

Definition isUrlencoded (m : mediaType) : bool :=
  match m with FormUrlencoded => true | _ => false end.

(** *** [cors(options)] *)

Record CorsOptions := {
  cors_origin : option string;
  cors_credentials : bool;
  cors_optionsSuccessStatus : Z;
  cors_methods : list string
}.

Module Cors.

(** [vary(res, field)]: appends to the Vary header. *)
Definition vary (field : string) (r : Response) : Response :=
  match resHeaders r !! "Vary" with
  | Some v => setHeader "Vary" (v +:+ ", " +:+ field) r
  | None => setHeader "Vary" field r
  end.

(** With the origin ['*'] every origin is allowed; with any other string
    the header is that string, whatever origin asks. *)
Definition configureOrigin (o : CorsOptions) (r : Response) : Response :=
  match cors_origin o with
  | None => setHeader "Access-Control-Allow-Origin" "*" r
  | Some origin =>
      if String.eqb origin "" || String.eqb origin "*"
      then setHeader "Access-Control-Allow-Origin" "*" r
      else vary "Origin" (setHeader "Access-Control-Allow-Origin" origin r)
  end.

Definition configureCredentials (o : CorsOptions) (r : Response) : Response :=
  if cors_credentials o then setHeader "Access-Control-Allow-Credentials" "true" r else r.

Definition configureMethods (o : CorsOptions) (r : Response) : Response :=
  setHeader "Access-Control-Allow-Methods" (join "," (cors_methods o)) r.

(** No [allowedHeaders] option: the requested headers are reflected. *)
Definition configureAllowedHeaders (rq : Request) (r : Response) : Response :=
  let r := vary "Access-Control-Request-Headers" r in
  match reqHeaders rq !! "access-control-request-headers" with
  | Some hs => if String.eqb hs "" then r else setHeader "Access-Control-Allow-Headers" hs r
  | None => r
  end.

Definition isPreflight (rq : Request) : bool :=
  String.eqb (toUpperCase (method rq)) "OPTIONS".

(** [cors(options, req, res, next)]: an OPTIONS request is a preflight and
    is answered here ([preflightContinue] is off); any other request gets
    the origin and credentials headers and goes on. *)
Definition cors (o : CorsOptions) (x : Exchange) : Exchange * signal :=
  if isPreflight (req x) then
    (with_res (fun r =>
       res_end (setHeader "Content-Length" "0"
         (res_status (cors_optionsSuccessStatus o)
           (configureAllowedHeaders (req x)
             (configureMethods o
               (configureCredentials o
                 (configureOrigin o r))))))) x, End)
  else
    (with_res (fun r => configureCredentials o (configureOrigin o r)) x, Next).

(** The layer does its work only when the [origin] option is truthy: an
    undefined or empty origin overrides the package default and switches
    the layer off. *)
Definition enabled (o : CorsOptions) : bool :=
  match cors_origin o with
  | Some origin => negb (String.eqb origin "")
  | None => false
  end.

(** The middleware [cors(options)] returns. *)
Definition middleware (o : CorsOptions) (x : Exchange) : Exchange * signal :=
  if enabled o then cors o x else (x, Next).

(** The requests the layer answers itself. *)
Definition answers (o : CorsOptions) (rq : Request) : bool :=
  enabled o && isPreflight rq.

End Cors.

(** *** [cookie-session]: attaches the session options to the request *)
Definition setSessionOptions (o : CookieSessionOptions) (r : Request) : Request :=
  {| method := method r; originalUrl := originalUrl r; reqHeaders := reqHeaders r;
     entity := entity r; sessionOptions := Some o; bodyParsed := bodyParsed r |}.

(** ** Routes

    Modelled from the spec: the route table registered by
    [applicationRoutes] of [./routes], which is not among the sources.
    The spec's route dispatch interface: a handler either returns normally
    with the response written, or raises/rejects with an error (with
    [express-async-errors] a rejection reaches [next(err)] like a throw). *)
Record route := {
  routeMatches : Request → bool;
  routeHandler : Request → Response → Response + thrown
}.

(** ** Layers and the application *)

Inductive layer :=
| CookieSession (o : CookieSessionOptions)
| Hpp
| Helmet
| UseCors (o : CorsOptions)
| Compression
| Json (o : JsonOptions)
| Urlencoded (o : UrlencodedOptions)
| Route (r : route)
| All (path : string) (handler : Exchange → Exchange * signal)
| ErrorMiddleware (handler : thrown → Exchange → Exchange * signal).

(** An Express application: its stack of layers, in registration order. *)
Definition Application := list layer.

Definition layer_name (l : layer) : layerName :=
  match l with
  | CookieSession _ => NCookieSession
  | Hpp => NHpp
  | Helmet => NHelmet
  | UseCors _ => NCors
  | Compression => NCompression
  | Json _ => NJson
  | Urlencoded _ => NUrlencoded
  | Route _ => NRoute
  | All _ _ => NAll
  | ErrorMiddleware _ => NErrorMiddleware
  end.

(** Path patterns: ['*'] matches everything, anything else is compared
    with the path of the URL. *)
Definition path_matches (pattern url : string) : bool :=
  String.eqb pattern "*" || String.eqb pattern (pathname url).

Definition layer_applies (l : layer) (r : Request) : bool :=
  match l with
  | Route rt => routeMatches rt r
  | All path _ => path_matches path (originalUrl r)
  | _ => true
  end.

(** Where dispatch ends: a layer ended the response, or the stack ran out
    and Express hands the request (and a pending error, if any) to its own
    default final handler. *)
Inductive outcome :=
| Responded (x : Exchange)
| Unhandled (err : option thrown) (x : Exchange).

(** [HTTP_STATUS] of the package [http-status-codes]. *)
Module HTTP_STATUS.
Definition NOT_FOUND : Z := 404.
End HTTP_STATUS.

(** ** The gateway: Socket.IO server and broker clients *)

(** The [cors] entry of the Socket.IO server options, as the source writes
    it: an origin and a method list, nothing else. *)
Record SocketCors := {
  io_origin : option string;
  io_methods : list string
}.

Inductive client := PubClient | SubClient.

Global Instance client_eq_dec : EqDecision client.
Proof. solve_decision. Defined.

(** [createAdapter(pubClient, subCliend)] *)
Inductive adapter := RedisAdapter (pub sub : client).

(** A Socket.IO [Server]: its CORS options, the adapter installed with
    [io.adapter], and the names of the events it has listeners for
    ([io.on(name, ...)]). *)
Record Server := {
  io_cors : SocketCors;
  io_adapter : option adapter;
  io_listeners : list string
}.

Definition set_adapter (a : adapter) (io : Server) : Server :=
  {| io_cors := io_cors io; io_adapter := Some a; io_listeners := io_listeners io |}.

(** A promise, as far as the program can tell. *)
Inductive promise :=
| Pending
| Fulfilled
| Rejected (reason : thrown).

(** What the event loop delivers to the process. *)
Inductive event :=
| ConnectDone (c : client)                 (* the connect promise of [c] resolves *)
| ConnectFailed (c : client) (reason : thrown)  (* ... or rejects *)
| HttpListening.                           (* the 'listening' event of the HTTP server *)

(** What the program does, in the vocabulary of the source (and, for
    [ProcessExit], [Poll] and [On], of what it could have done). *)
Inductive action :=
| AppUse (n : layerName)
| NewHttpServer
| NewSocketServer (cors : SocketCors)
| CreateClient (url : option string)
| Duplicate
| Connect (c : client)
| CreateAdapter
| SetAdapter
| Listen (port : Z)
| WriteLog (entry : LogEntry)
| On (eventName : string)
| Poll (c : client)
| ProcessExit (code : Z).

Inductive item :=
| Did (a : action)
| Got (e : event).

(** Where [startServer] stands. *)
Inductive control :=
| Idle            (* [start] has not been called *)
| AwaitingAll     (* suspended at [await Promise.all([...])] *)
| Returned        (* the [try] block ran to its end *)
| Caught.         (* the [catch] block ran *)

(** The connection acceptor of the HTTP server. *)
Inductive acceptor :=
| Closed                 (* [listen] not called *)
| Binding (port : Z)     (* [listen(port, callback)] called *)
| Bound (port : Z).      (* 'listening' emitted, callback run *)

(** The process: the application, the objects [startServer] created, the
    two connect promises, the port being listened on, and everything that
    happened so far (oldest first). *)
Record World := {
  application : Application;
  httpServer : option Application;
  socketIO : option Server;
  pubConnect : option promise;   (* [None]: [connect()] not called yet *)
  subConnect : option promise;
  listening : acceptor;
  control_state : control;
  history : list item
}.

Definition did (a : action) (w : World) : World :=
  {| application := application w; httpServer := httpServer w;
     socketIO := socketIO w; pubConnect := pubConnect w;
     subConnect := subConnect w; listening := listening w;
     control_state := control_state w; history := history w ++ [Did a] |}.

Definition got (e : event) (w : World) : World :=
  {| application := application w; httpServer := httpServer w;
     socketIO := socketIO w; pubConnect := pubConnect w;
     subConnect := subConnect w; listening := listening w;
     control_state := control_state w; history := history w ++ [Got e] |}.

Definition set_application (a : Application) (w : World) : World :=
  {| application := a; httpServer := httpServer w;
     socketIO := socketIO w; pubConnect := pubConnect w;
     subConnect := subConnect w; listening := listening w;
     control_state := control_state w; history := history w |}.

Definition set_httpServer (h : Application) (w : World) : World :=
  {| application := application w; httpServer := Some h;
     socketIO := socketIO w; pubConnect := pubConnect w;
     subConnect := subConnect w; listening := listening w;
     control_state := control_state w; history := history w |}.

Definition set_socketIO (io : Server) (w : World) : World :=
  {| application := application w; httpServer := httpServer w;
     socketIO := Some io; pubConnect := pubConnect w;
     subConnect := subConnect w; listening := listening w;
     control_state := control_state w; history := history w |}.

Definition set_connect (c : client) (p : promise) (w : World) : World :=
  {| application := application w; httpServer := httpServer w;
     socketIO := socketIO w;
     pubConnect := match c with PubClient => Some p | SubClient => pubConnect w end;
     subConnect := match c with PubClient => subConnect w | SubClient => Some p end;
     listening := listening w;
     control_state := control_state w; history := history w |}.

Definition set_listening (port : acceptor) (w : World) : World :=
  {| application := application w; httpServer := httpServer w;
     socketIO := socketIO w; pubConnect := pubConnect w;
     subConnect := subConnect w; listening := port;
     control_state := control_state w; history := history w |}.

Definition set_control (c : control) (w : World) : World :=
  {| application := application w; httpServer := httpServer w;
     socketIO := socketIO w; pubConnect := pubConnect w;
     subConnect := subConnect w; listening := listening w;
     control_state := c; history := history w |}.

Definition connect_promise (c : client) (w : World) : option promise :=
  match c with PubClient => pubConnect w | SubClient => subConnect w end.

(** A process in which nothing has run yet. *)
Definition idle (app : Application) : World :=
  {| application := app; httpServer := None; socketIO := None;
     pubConnect := None; subConnect := None; listening := Closed;
     control_state := Idle; history := [] |}.

(** [app.use(layer)] and [app.all(path, handler)] push onto the stack. *)
Definition app_use (l : layer) (w : World) : World :=
  did (AppUse (layer_name l)) (set_application (application w ++ [l])%list w).

(** The other client of the pair. *)
Definition other (c : client) : client :=
  match c with
  | PubClient => SubClient
  | SubClient => PubClient
  end.

(** The deliveries that change a process suspended in [start]: the first
    settlement of each connect promise, and the 'listening' event once
    [listen] has been called.  Everything else the event loop may deliver
    (a second settlement of a promise, 'listening' without [listen]) is
    ignored by [step]. *)
Inductive effective : list event → Prop :=
| eff_suspended : effective []
| eff_one c : effective [ConnectDone c]
| eff_both c : effective [ConnectDone c; ConnectDone (other c)]
| eff_bound c : effective [ConnectDone c; ConnectDone (other c); HttpListening]
| eff_failed c e : effective [ConnectFailed c e]
| eff_failed_done c e : effective [ConnectFailed c e; ConnectDone (other c)]
| eff_failed_failed c e e' : effective [ConnectFailed c e; ConnectFailed (other c) e']
| eff_done_failed c e : effective [ConnectDone c; ConnectFailed (other c) e].

(** How many times [connect()] was called on client [c]. *)
Fixpoint connectCalls (c : client) (h : list item) : nat :=
  match h with
  | [] => 0
  | Did (Connect c') :: rest =>
      (if bool_decide (c = c') then 1 else 0) + connectCalls c rest
  | _ :: rest => connectCalls c rest
  end.

(** ** A sample deployment

    A concrete configuration, route table and requests, used to run the
    server on explicit inputs. *)
Module Sample.

Definition config : Config :=
  {| SECRET_KEY_ONE := Some "first-secret";
     SECRET_KEY_TWO := Some "second-secret";
     NODE_ENV := Some "development";
     CLIENT_URL := Some "http://localhost:3000";
     REDIS_HOST := Some "redis://localhost:6379" |}.

Definition boom : thrown := ErrOther "TypeError" "boom" None.

(** [/health] answers 200; [/boom] throws an error that is not a
    [CustomError]. *)
Definition routes : list route :=
  [ {| routeMatches := fun r => String.eqb (pathname (originalUrl r)) "/health";
       routeHandler := fun _ r => inl (res_json (JObj [("status", JStr "ok")])
                                        (res_status 200 r)) |};
    {| routeMatches := fun r => String.eqb (pathname (originalUrl r)) "/boom";
       routeHandler := fun _ _ => inr boom |} ].

Definition helmetDefaults : list (string * string) :=
  [("X-Content-Type-Options", "nosniff"); ("X-Frame-Options", "SAMEORIGIN")].

Definition pid : Z := 4242.

Definition request (m url : string) (e : option Entity) : Request :=
  {| method := m; originalUrl := url; reqHeaders := ∅; entity := e;
     sessionOptions := None; bodyParsed := false |}.


Definition refused : thrown := ErrOther "Error" "connect ECONNREFUSED" None.

End Sample.

(** More sample inputs. *)
Module MoreSamples.

Definition smallJson : Entity :=
  {| entityType := ApplicationJson; entityLength := 2048 |}.


End MoreSamples.

(** ** The server *)

Section MediaBookServer.

(** The collaborators the module imports or reads from its environment. *)
Variable config : Config.
(** Modelled from the spec: the routes [applicationRoutes(app)] of
    [./routes] registers; the file is not among the sources. *)
Variable applicationRoutes : list route.
(** The fixed headers [helmet()] sets. *)
Variable helmetDefaults : list (string * string).
(** [process.pid] *)
Variable pid : Z.

(** *** Dispatch through the stack *)

(** [helmet()]: sets its fixed headers. *)
Definition helmet (r : Response) : Response :=
  foldl (fun r kv => setHeader kv.1 kv.2 r) r helmetDefaults.

(** What a layer does with an exchange it is entered with.  [hpp()] only
    normalises repeated query parameters and [compression()] only wraps the
    way the body is written: neither answers nor refuses a request. *)
Definition run_layer (l : layer) (x : Exchange) : Exchange * signal :=
  match l with
  | CookieSession o => (with_req (setSessionOptions o) x, Next)
  | Hpp => (x, Next)
  | Helmet => (with_res helmet x, Next)
  | UseCors o => Cors.middleware o x
  | Compression => (x, Next)
  | Json o => bodyParser isJson (json_limit o) x
  | Urlencoded o => bodyParser isUrlencoded (urlencoded_limit o) x
  | Route rt =>
      match routeHandler rt (req x) (res x) with
      | inl r => (with_res (fun _ => r) x, End)
      | inr e => (x, NextErr e)
      end
  | All _ handler => handler x
  | ErrorMiddleware _ => (x, Next)
  end.

(** Express's router: without a pending error the error middleware is
    skipped and every other applicable layer is entered; with a pending
    error only error middleware is entered.  [next()] from an error
    middleware clears the error. *)
Fixpoint dispatch (stack : list layer) (err : option thrown) (x : Exchange) : outcome :=
  match stack with
  | [] => Unhandled err x
  | l :: rest =>
      match err, l with
      | Some e, ErrorMiddleware handler =>
          match handler e (enter NErrorMiddleware x) with
          | (x', Next) => dispatch rest None x'
          | (x', NextErr e') => dispatch rest (Some e') x'
          | (x', End) => Responded x'
          end
      | Some e, _ => dispatch rest (Some e) x
      | None, ErrorMiddleware _ => dispatch rest None x
      | None, _ =>
          if layer_applies l (req x) then
            match run_layer l (enter (layer_name l) x) with
            | (x', Next) => dispatch rest None x'
            | (x', NextErr e') => dispatch rest (Some e') x'
            | (x', End) => Responded x'
            end
          else dispatch rest None x
      end
  end.

(** A request arriving at the server: nothing is attached to it yet,
    nothing is written, logged or entered. *)
Definition arrive (r : Request) : Exchange :=
  {| req := {| method := method r; originalUrl := originalUrl r;
               reqHeaders := reqHeaders r; entity := entity r;
               sessionOptions := None; bodyParsed := false |};
     res := freshResponse; log := []; entered := [] |}.

(** *** [securityMiddleware] *)

Definition cookieSessionOptions : CookieSessionOptions :=
  {| cs_name := "session";
     cs_keys := [SECRET_KEY_ONE config; SECRET_KEY_TWO config];
     cs_maxAge := 24 * 7 * 3600000;
     cs_secure := negb (bool_decide (NODE_ENV config = Some "development")) |}.

Definition corsOptions : CorsOptions :=
  {| cors_origin := CLIENT_URL config;
     cors_credentials := true;
     cors_optionsSuccessStatus := 200;
     cors_methods := ["GET"; "POST"; "PUT"; "DELETE"; "OPTIONS"] |}.

Definition securityMiddleware (w : World) : World :=
  let w := app_use (CookieSession cookieSessionOptions) w in
  let w := app_use Hpp w in
  let w := app_use Helmet w in
  app_use (UseCors corsOptions) w.

(** *** [standarMiddleware] *)

Definition standarMiddleware (w : World) : World :=
  let w := app_use Compression w in
  let w := app_use (Json {| json_limit := "50mb" |}) w in
  app_use (Urlencoded {| urlencoded_extended := true; urlencoded_limit := "50mb" |}) w.

(** *** [routesMiddleware] *)

Definition routesMiddleware (w : World) : World :=
  foldl (fun w rt => app_use (Route rt) w) w applicationRoutes.

(** *** [globalErrorHandler] *)

(** [(req, res) => res.status(HTTP_STATUS.NOT_FOUND).json({ message: `${req.originalUrl} not found` })] *)
Definition notFoundHandler (x : Exchange) : Exchange * signal :=
  (with_res (fun r =>
     res_json (JObj [("message", JStr (originalUrl (req x) +:+ " not found"))])
       (res_status HTTP_STATUS.NOT_FOUND r)) x,
   End).

(** [(error, _req, res, next) => { log.error(error); if (error instanceof CustomError) return res.status(...).json(...); next(); }] *)
Definition errorHandler (error : thrown) (x : Exchange) : Exchange * signal :=
  let x := log_write (LogError error) x in
  match instanceof_CustomError error with
  | Some e =>
      (with_res (fun r =>
         res_json (CustomError.serializeErrors e)
           (res_status (CustomError.statusCode e) r)) x,
       End)
  | None => (x, Next)
  end.

Definition globalErrorHandler (w : World) : World :=
  let w := app_use (All "*" notFoundHandler) w in
  app_use (ErrorMiddleware errorHandler) w.

(** *** [createSocteIO], [startHttpServer], [socketIOConnections], [startServer] *)

Definition socketCors : SocketCors :=
  {| io_origin := CLIENT_URL config;
     io_methods := ["GET"; "POST"; "PUT"; "DELETE"; "OPTIONS"] |}.

(** [createSocteIO] from its first line to its [await]: the Socket.IO
    server and both clients are created, both [connect()] calls are made,
    and the function suspends on [Promise.all] of the two promises. *)
Definition createSocteIO (w : World) : World :=
  let w := did (NewSocketServer socketCors)
             (set_socketIO {| io_cors := socketCors; io_adapter := None;
                              io_listeners := [] |} w) in
  let w := did (CreateClient (REDIS_HOST config)) w in
  let w := did Duplicate w in
  let w := did (Connect PubClient) (set_connect PubClient Pending w) in
  let w := did (Connect SubClient) (set_connect SubClient Pending w) in
  set_control AwaitingAll w.

(** [createSocteIO] after its [await]:
    [io.adapter(createAdapter(pubClient, subCliend)); return io]. *)
Definition createSocteIO_resumed (w : World) : World :=
  let w := did CreateAdapter w in
  match socketIO w with
  | Some io =>
      did SetAdapter (set_socketIO (set_adapter (RedisAdapter PubClient SubClient) io) w)
  | None => w
  end.

Definition startHttpServer (w : World) : World :=
  let w := did (WriteLog (LogInfo ("Server started with process " +:+ pretty pid))) w in
  did (Listen SERVER_PORT) (set_listening (Binding SERVER_PORT) w).

(** The callback given to [listen]. *)
Definition listenCallback (w : World) : World :=
  did (WriteLog (LogInfo ("Server running on port " +:+ pretty SERVER_PORT))) w.

(** [private socketIOConnections(io:Server): void{}] *)
Definition socketIOConnections (io : Server) (w : World) : World := w.

(** [startServer] up to the [await] inside its [try]. *)
Definition startServer (w : World) : World :=
  let w := did NewHttpServer (set_httpServer (application w) w) in
  createSocteIO w.

(** The rest of the [try] block, once the [await] has its value. *)
Definition startServer_resumed (w : World) : World :=
  let w := createSocteIO_resumed w in
  let w := startHttpServer w in
  let w := match socketIO w with
           | Some io => socketIOConnections io w
           | None => w
           end in
  set_control Returned w.

(** [catch (error) { log.error(error); }] *)
Definition startServer_catch (error : thrown) (w : World) : World :=
  set_control Caught (did (WriteLog (LogError error)) w).

(** *** [start] *)

Definition start (w : World) : World :=
  let w := securityMiddleware w in
  let w := standarMiddleware w in
  let w := routesMiddleware w in
  let w := globalErrorHandler w in
  startServer w.

(** *** The event loop *)

(** [Promise.all]: rejected as soon as one member is, fulfilled once all
    are, pending otherwise.  A promise whose [connect()] was never called
    does not exist yet and counts as pending. *)
Fixpoint promise_all (ps : list (option promise)) : promise :=
  match ps with
  | [] => Fulfilled
  | p :: rest =>
      match p, promise_all rest with
      | Some (Rejected e), _ => Rejected e
      | _, Rejected e => Rejected e
      | Some Fulfilled, Fulfilled => Fulfilled
      | _, _ => Pending
      end
  end.

(** After a settlement: a suspended [startServer] goes on, in its [try]
    or in its [catch], if the awaited [Promise.all] has settled. *)
Definition wake (w : World) : World :=
  match control_state w with
  | AwaitingAll =>
      match promise_all [pubConnect w; subConnect w] with
      | Fulfilled => startServer_resumed w
      | Rejected e => startServer_catch e w
      | Pending => w
      end
  | _ => w
  end.

(** One turn of the event loop.  A promise settles once: a settlement for
    a promise that is not pending is no event at all. *)
Definition step (w : World) (ev : event) : World :=
  match ev with
  | ConnectDone c =>
      match connect_promise c w with
      | Some Pending => wake (set_connect c Fulfilled (got ev w))
      | _ => w
      end
  | ConnectFailed c e =>
      match connect_promise c w with
      | Some Pending => wake (set_connect c (Rejected e) (got ev w))
      | _ => w
      end
  | HttpListening =>
      match listening w with
      | Binding port => listenCallback (set_listening (Bound port) (got ev w))
      | _ => w
      end
  end.

Definition run (w : World) (evs : list event) : World := foldl step w evs.

(** The process after [new MediaBookServer(app).start()] has returned. *)
Definition started (app : Application) : World := start (idle app).

(** The layers each stage installs. *)
Definition securityLayers : list layer :=
  [CookieSession cookieSessionOptions; Hpp; Helmet; UseCors corsOptions].

Definition standardLayers : list layer :=
  [Compression; Json {| json_limit := "50mb" |};
   Urlencoded {| urlencoded_extended := true; urlencoded_limit := "50mb" |}].

Definition routeLayers : list layer := map Route applicationRoutes.

Definition errorBoundaryLayers : list layer :=
  [All "*" notFoundHandler; ErrorMiddleware errorHandler].

(** The exchange an outcome ends with. *)
Definition final (o : outcome) : Exchange :=
  match o with
  | Responded x => x
  | Unhandled _ x => x
  end.

(** The server answering request [r]. *)
Definition serve (r : Request) : outcome :=
  dispatch (application (started [])) None (arrive r).


(** The stack [start] installs, the Socket.IO server [createSocteIO]
    creates, and what [start] does before it returns. *)
Definition installedLayers : list layer :=
  securityLayers ++ standardLayers ++ routeLayers ++ errorBoundaryLayers.

Definition newSocketServer : Server :=
  {| io_cors := socketCors; io_adapter := None; io_listeners := [] |}.

Definition synchronousPart : list item :=
  map (fun l => Did (AppUse (layer_name l))) installedLayers
  ++ [Did NewHttpServer; Did (NewSocketServer socketCors);
      Did (CreateClient (REDIS_HOST config)); Did Duplicate;
      Did (Connect PubClient); Did (Connect SubClient)].

(** What [start] itself does: installing layers and creating the server
    objects and clients. *)
Definition is_setup (i : item) : Prop :=
  match i with
  | Did (AppUse _) | Did NewHttpServer | Did (NewSocketServer _)
  | Did (CreateClient _) | Did Duplicate | Did (Connect _) => True
  | _ => False
  end.

(** The first registered route that matches a request. *)
Fixpoint firstMatch (rs : list route) (r : Request) : option route :=
  match rs with
  | [] => None
  | rt :: rest => if routeMatches rt r then Some rt else firstMatch rest r
  end.

(** How many items of a history satisfy [p]. *)
Fixpoint occurrences (p : item → bool) (h : list item) : nat :=
  match h with
  | [] => 0
  | i :: rest => (if p i then 1 else 0) + occurrences p rest
  end.

Definition is_new_http (i : item) : bool :=
  match i with Did NewHttpServer => true | _ => false end.

Definition is_new_socket (i : item) : bool :=
  match i with Did (NewSocketServer _) => true | _ => false end.

Definition is_create_adapter (i : item) : bool :=
  match i with Did CreateAdapter => true | _ => false end.

Definition is_listen (i : item) : bool :=
  match i with Did (Listen _) => true | _ => false end.

Definition is_error_log (i : item) : bool :=
  match i with Did (WriteLog (LogError _)) => true | _ => false end.

(** The two messages of [startHttpServer]. *)
Definition startedMessage : string := "Server started with process " +:+ pretty pid.

Definition runningMessage : string := "Server running on port " +:+ pretty SERVER_PORT.

(** The headers the [cors] layer and the server's own answers set. *)
Definition ownHeaders : list string :=
  ["Access-Control-Allow-Origin"; "Access-Control-Allow-Credentials";
   "Access-Control-Allow-Methods"; "Access-Control-Allow-Headers";
   "Vary"; "Content-Length"; "Content-Type"].

(** A response header. *)
Definition header (name : string) (x : Exchange) : option string :=
  resHeaders (res x) !! name.

(** ** Properties *)

(** *** The stack built by [start] *)

Lemma application_app_use l w :
  application (app_use l w) = (application w ++ [l])%list.
Proof. reflexivity. Qed.

Lemma application_foldl_routes rs w :
  application (foldl (fun w rt => app_use (Route rt) w) w rs)
  = (application w ++ map Route rs)%list.
Proof.
  revert w. induction rs as [|rt rs IH]; intros w; simpl.
  - by rewrite app_nil_r.
  - rewrite IH, application_app_use, <- app_assoc. reflexivity.
Qed.

Lemma application_start w :
  application (start w)
  = (application w ++ securityLayers ++ standardLayers
       ++ routeLayers ++ errorBoundaryLayers)%list.
Proof.
  unfold start, startServer, createSocteIO, globalErrorHandler, routesMiddleware.
  cbn [application did set_control set_connect set_socketIO set_httpServer].
  rewrite !application_app_use, application_foldl_routes.
  unfold standarMiddleware, securityMiddleware.
  rewrite !application_app_use.
  rewrite <- !app_assoc. reflexivity.
Qed.

Lemma application_started :
  application (started [])
  = (securityLayers ++ standardLayers ++ routeLayers ++ errorBoundaryLayers)%list.
Proof. unfold started. rewrite application_start. reflexivity. Qed.

(** *** Dispatch *)

Lemma dispatch_app s1 s2 err x :
  dispatch (s1 ++ s2) err x
  = match dispatch s1 err x with
    | Responded y => Responded y
    | Unhandled err' y => dispatch s2 err' y
    end.
Proof.
  revert err x. induction s1 as [|l s1 IH]; intros err x; [reflexivity|].
  cbn [app dispatch].
  destruct err as [e|], l; rewrite ?IH; try reflexivity;
    repeat match goal with
           | |- context [if ?b then _ else _] => destruct b
           | |- context [match ?p with (_, _) => _ end] => destruct p as [? []]
           end; rewrite ?IH; reflexivity.
Qed.

(** A pending error passes every route untouched. *)
Lemma dispatch_routes_error rs rest e x :
  dispatch (map Route rs ++ rest) (Some e) x = dispatch rest (Some e) x.
Proof. induction rs as [|rt rs IH]; [reflexivity|]. simpl. exact IH. Qed.


(** The error boundary on a request no layer answered. *)
Lemma errorBoundary_not_found x :
  dispatch errorBoundaryLayers None x
  = Responded (fst (notFoundHandler (enter NAll x))).
Proof. reflexivity. Qed.

(** The error boundary on a pending error. *)
Lemma errorBoundary_error e x :
  dispatch errorBoundaryLayers (Some e) x
  = match errorHandler e (enter NErrorMiddleware x) with
    | (y, End) => Responded y
    | (y, Next) => Unhandled None y
    | (y, NextErr e') => Unhandled (Some e') y
    end.
Proof.
  unfold errorBoundaryLayers. cbn [dispatch].
  destruct (errorHandler e (enter NErrorMiddleware x)) as [y []]; reflexivity.
Qed.

(** *** The security and request stages *)

Lemma security_stage_pass x :
  Cors.answers corsOptions (req x) = false →
  dispatch securityLayers None x
  = Unhandled None
      {| req := setSessionOptions cookieSessionOptions (req x);
         res := if Cors.enabled corsOptions
                then Cors.configureCredentials corsOptions
                       (Cors.configureOrigin corsOptions (helmet (res x)))
                else helmet (res x);
         log := log x;
         entered := entered x ++ [NCookieSession; NHpp; NHelmet; NCors] |}.
Proof.
  intros Hpre. unfold securityLayers.
  cbn [dispatch layer_applies run_layer layer_name].
  unfold Cors.answers, Cors.middleware, Cors.cors, Cors.isPreflight in *. cbn.
  destruct (Cors.enabled corsOptions); cbn in Hpre; rewrite ?Hpre;
    unfold with_res, with_req, enter; cbn;
    rewrite <- !app_assoc; reflexivity.
Qed.

Lemma security_stage_preflight x :
  Cors.answers corsOptions (req x) = true →
  dispatch securityLayers None x
  = Responded
      {| req := setSessionOptions cookieSessionOptions (req x);
         res := res_end (setHeader "Content-Length" "0"
                  (res_status 200
                    (Cors.configureAllowedHeaders
                      (setSessionOptions cookieSessionOptions (req x))
                      (Cors.configureMethods corsOptions
                        (Cors.configureCredentials corsOptions
                          (Cors.configureOrigin corsOptions (helmet (res x))))))));
         log := log x;
         entered := entered x ++ [NCookieSession; NHpp; NHelmet; NCors] |}.
Proof.
  intros Hpre. unfold securityLayers.
  cbn [dispatch layer_applies run_layer layer_name].
  unfold Cors.answers, Cors.middleware, Cors.cors, Cors.isPreflight in *. cbn.
  destruct (Cors.enabled corsOptions); cbn in Hpre; [|discriminate].
  rewrite Hpre. unfold with_res, with_req, enter. cbn.
  rewrite <- !app_assoc. reflexivity.
Qed.




Lemma guard_stack :
  application (standarMiddleware (securityMiddleware (idle [])))
  = (securityLayers ++ standardLayers)%list.
Proof. reflexivity. Qed.



(** *** Response headers *)

Lemma lookup_setHeader_eq k v r : resHeaders (setHeader k v r) !! k = Some v.
Proof. apply lookup_insert_eq. Qed.

Lemma lookup_setHeader_ne k k' v r :
  k ≠ k' → resHeaders (setHeader k v r) !! k' = resHeaders r !! k'.
Proof. intros Hne. by apply lookup_insert_ne. Qed.

Lemma lookup_vary_ne field k r :
  k ≠ "Vary" → resHeaders (Cors.vary field r) !! k = resHeaders r !! k.
Proof.
  intros Hne. unfold Cors.vary.
  destruct (resHeaders r !! "Vary"); by apply lookup_setHeader_ne.
Qed.

Lemma lookup_configureAllowedHeaders rq k r :
  k ≠ "Vary" → k ≠ "Access-Control-Allow-Headers" →
  resHeaders (Cors.configureAllowedHeaders rq r) !! k = resHeaders r !! k.
Proof.
  intros Hv Ha. unfold Cors.configureAllowedHeaders.
  destruct (reqHeaders rq !! _) as [hs|]; [destruct (String.eqb hs "")|];
    rewrite ?lookup_setHeader_ne by done; by apply lookup_vary_ne.
Qed.

(** With a configured origin the allowed origin is that origin and
    credentials are allowed with it, whatever was set before. *)
Lemma cors_origin_headers o r :
  CLIENT_URL config = Some o → o ≠ "" → o ≠ "*" →
  let r' := Cors.configureCredentials corsOptions (Cors.configureOrigin corsOptions r) in
  resHeaders r' !! "Access-Control-Allow-Origin" = Some o
  ∧ resHeaders r' !! "Access-Control-Allow-Credentials" = Some "true"
  ∧ statusCode r' = statusCode r.
Proof.
  intros Hurl Hne Hstar. cbn zeta.
  unfold Cors.configureCredentials, Cors.configureOrigin, corsOptions.
  cbn [cors_origin cors_credentials]. rewrite Hurl.
  apply String.eqb_neq in Hne, Hstar. rewrite Hne, Hstar. cbn [orb].
  split; [|split].
  - rewrite lookup_setHeader_ne, lookup_vary_ne by done.
    apply lookup_setHeader_eq.
  - apply lookup_setHeader_eq.
  - unfold Cors.vary. by destruct (resHeaders _ !! "Vary").
Qed.

(** *** The error boundary *)

Lemma errorBoundary_stack :
  application (globalErrorHandler (idle [])) = errorBoundaryLayers.
Proof. reflexivity. Qed.

(** An error that is not a [CustomError] is logged and handed on with
    [next()]: no layer answers, and the exchange leaves the stack with
    its response untouched. *)
Lemma unclassified_error_unanswered rs name detail st x :
  dispatch (map Route rs ++ application (globalErrorHandler (idle [])))
    (Some (ErrOther name detail st)) x
  = Unhandled None
      {| req := req x; res := res x;
         log := log x ++ [LogError (ErrOther name detail st)];
         entered := entered x ++ [NErrorMiddleware] |}.
Proof. rewrite dispatch_routes_error. reflexivity. Qed.



(** *** The session credential *)

(** C6: the first layer [securityMiddleware] installs is [cookieSession]
    with name "session", the two configured keys, a max age of seven days
    in milliseconds, and a secure flag that is false exactly when
    [NODE_ENV] is "development"; the options do not depend on the
    request they are attached to. *)
Theorem session_credential_options :
  application (securityMiddleware (idle [])) !! 0%nat
    = Some (CookieSession cookieSessionOptions)
  ∧ cs_name cookieSessionOptions = "session"
  ∧ cs_keys cookieSessionOptions = [SECRET_KEY_ONE config; SECRET_KEY_TWO config]
  ∧ length (cs_keys cookieSessionOptions) = 2%nat
  ∧ cs_maxAge cookieSessionOptions = 7 * (24 * 60 * 60 * 1000)
  ∧ (cs_secure cookieSessionOptions = false ↔ NODE_ENV config = Some "development")
  ∧ (cs_secure cookieSessionOptions = true ↔ NODE_ENV config ≠ Some "development")
  ∧ (∀ x, sessionOptions (req (run_layer (CookieSession cookieSessionOptions) x).1)
          = Some cookieSessionOptions).
Proof.
  repeat split; try reflexivity; unfold cookieSessionOptions; cbn [cs_secure].
  - intros H. apply negb_false_iff, bool_decide_eq_true in H. exact H.
  - intros H. apply negb_false_iff, bool_decide_eq_true. exact H.
  - intros H. apply negb_true_iff, bool_decide_eq_false in H. exact H.
  - intros H. apply negb_true_iff, bool_decide_eq_false. exact H.
Qed.

(** *** The process after [start] *)

Lemma routes_installed rs w :
  foldl (fun w rt => app_use (Route rt) w) w rs
  = {| application := application w ++ map Route rs;
       httpServer := httpServer w; socketIO := socketIO w;
       pubConnect := pubConnect w; subConnect := subConnect w;
       listening := listening w; control_state := control_state w;
       history := history w
                  ++ map (fun l => Did (AppUse (layer_name l))) (map Route rs) |}.
Proof.
  revert w. induction rs as [|rt rs IH]; intros w.
  - destruct w. cbn. by rewrite !app_nil_r.
  - cbn [foldl]. rewrite IH. cbn. by rewrite <- !app_assoc.
Qed.

Lemma world_eq (w1 w2 : World) :
  application w1 = application w2 → httpServer w1 = httpServer w2 →
  socketIO w1 = socketIO w2 → pubConnect w1 = pubConnect w2 →
  subConnect w1 = subConnect w2 → listening w1 = listening w2 →
  control_state w1 = control_state w2 → history w1 = history w2 →
  w1 = w2.
Proof. destruct w1, w2; cbn; intros; by subst. Qed.

Lemma started_world app :
  started app
  = {| application := app ++ installedLayers;
       httpServer := Some (app ++ installedLayers);
       socketIO := Some newSocketServer;
       pubConnect := Some Pending; subConnect := Some Pending;
       listening := Closed; control_state := AwaitingAll;
       history := synchronousPart |}.
Proof.
  unfold started, start, startServer, createSocteIO, globalErrorHandler,
    routesMiddleware.
  rewrite routes_installed.
  apply world_eq; cbn; try reflexivity;
    unfold synchronousPart, installedLayers, routeLayers, errorBoundaryLayers,
      securityLayers, standardLayers;
    rewrite ?map_app, <- ?app_assoc; reflexivity.
Qed.

(** *** The cross-origin policy *)

Lemma preflight_headers o rq r :
  CLIENT_URL config = Some o → o ≠ "" → o ≠ "*" →
  let r' := res_end (setHeader "Content-Length" "0"
              (res_status 200
                (Cors.configureAllowedHeaders rq
                  (Cors.configureMethods corsOptions
                    (Cors.configureCredentials corsOptions
                      (Cors.configureOrigin corsOptions r)))))) in
  statusCode r' = 200
  ∧ finished r' = true
  ∧ resHeaders r' !! "Access-Control-Allow-Origin" = Some o
  ∧ resHeaders r' !! "Access-Control-Allow-Credentials" = Some "true"
  ∧ resHeaders r' !! "Access-Control-Allow-Methods" = Some "GET,POST,PUT,DELETE,OPTIONS".
Proof.
  intros Hurl Hne Hstar r'.
  destruct (cors_origin_headers o r Hurl Hne Hstar) as (Ho & Hc & _).
  subst r'. cbn [res_end statusCode finished resHeaders].
  repeat split;
    rewrite lookup_setHeader_ne by done; cbn [res_status resHeaders];
    rewrite lookup_configureAllowedHeaders by done;
    unfold Cors.configureMethods.
  - by rewrite lookup_setHeader_ne.
  - by rewrite lookup_setHeader_ne.
  - by rewrite lookup_setHeader_eq.
Qed.

(** C8: with an origin configured in [CLIENT_URL], the HTTP [cors] layer
    and the Socket.IO server are both given that origin and the methods
    GET, POST, PUT, DELETE, OPTIONS; every request leaves the security
    stage with that origin as the only allowed origin and credentials
    allowed with it; a preflight request is answered with status 200 and
    exactly those five methods. *)
Theorem cross_origin_policy (o : string) :
  CLIENT_URL config = Some o → o ≠ "" → o ≠ "*" →
  cors_origin corsOptions = Some o
  ∧ io_origin socketCors = Some o
  ∧ cors_methods corsOptions = ["GET"; "POST"; "PUT"; "DELETE"; "OPTIONS"]
  ∧ io_methods socketCors = ["GET"; "POST"; "PUT"; "DELETE"; "OPTIONS"]
  ∧ application (securityMiddleware (idle [])) !! 3%nat = Some (UseCors corsOptions)
  ∧ (∀ app, io_cors <$> socketIO (started app) = Some socketCors)
  ∧ (∀ r, ∃ y,
       dispatch (application (securityMiddleware (idle []))) None (arrive r)
         = (if Cors.isPreflight r then Responded y else Unhandled None y)
       ∧ header "Access-Control-Allow-Origin" y = Some o
       ∧ header "Access-Control-Allow-Credentials" y = Some "true")
  ∧ (∀ r, Cors.isPreflight r = true →
       ∃ y, serve r = Responded y
            ∧ statusCode (res y) = 200
            ∧ finished (res y) = true
            ∧ header "Access-Control-Allow-Origin" y = Some o
            ∧ header "Access-Control-Allow-Credentials" y = Some "true"
            ∧ header "Access-Control-Allow-Methods" y
              = Some "GET,POST,PUT,DELETE,OPTIONS").
Proof.
  intros Hurl Hne Hstar.
  assert (Hen : Cors.enabled corsOptions = true).
  { unfold Cors.enabled, corsOptions. cbn [cors_origin]. rewrite Hurl.
    apply String.eqb_neq in Hne. by rewrite Hne. }
  assert (Hans : ∀ r, Cors.answers corsOptions (req (arrive r)) = Cors.isPreflight r).
  { intros r. unfold Cors.answers. by rewrite Hen. }
  split; [exact Hurl|]. split; [exact Hurl|].
  split; [reflexivity|]. split; [reflexivity|]. split; [reflexivity|].
  split; [intros app; by rewrite started_world|].
  split.
  - intros r. change (application (securityMiddleware (idle []))) with securityLayers.
    destruct (Cors.isPreflight r) eqn:Hpre.
    + rewrite security_stage_preflight by (by rewrite Hans).
      eexists. split; [reflexivity|]. unfold header. cbn [res].
      by destruct (preflight_headers o
                     (setSessionOptions cookieSessionOptions (req (arrive r)))
                     (helmet (res (arrive r))) Hurl Hne Hstar) as (_ & _ & ? & ? & _).
    + rewrite security_stage_pass by (by rewrite Hans).
      eexists. split; [reflexivity|]. unfold header. cbn [res]. rewrite Hen.
      by destruct (cors_origin_headers o (helmet (res (arrive r))) Hurl Hne Hstar)
        as (? & ? & _).
  - intros r Hpre. unfold serve.
    rewrite application_started, dispatch_app.
    rewrite security_stage_preflight by (by rewrite Hans).
    eexists. split; [reflexivity|]. unfold header. cbn [res].
    by destruct (preflight_headers o
                   (setSessionOptions cookieSessionOptions (req (arrive r)))
                   (helmet (res (arrive r))) Hurl Hne Hstar) as (? & ? & ? & ? & ?).
Qed.

(** *** The body size limit *)

Lemma limit_50mb : Bytes.parse "50mb" = Some (50 * 1024 * 1024)%N.
Proof. reflexivity. Qed.





(** *** The event loop after [start] *)

Ltac world_compute :=
  rewrite ?started_world;
  cbv [run foldl step wake connect_promise set_connect got did set_control
       set_listening set_socketIO set_adapter startServer_resumed
       createSocteIO_resumed startHttpServer socketIOConnections
       startServer_catch listenCallback promise_all other
       application httpServer socketIO pubConnect subConnect listening
       control_state history io_cors io_adapter io_listeners newSocketServer].

(** A delivery either changes nothing or extends an effective sequence
    to an effective sequence. *)
Lemma effective_step app t ev :
  effective t →
  step (run (started app) t) ev = run (started app) t ∨ effective (t ++ [ev]).
Proof.
  intros Ht.
  destruct Ht as [|c|c|c|c e|c e|c e e'|c e];
    destruct ev as [c1|c1 e1|]; try destruct c; try destruct c1;
    first
      [ left; world_compute; reflexivity
      | right; cbn [List.app other];
        first [ apply eff_one | apply eff_failed
              | apply (eff_both PubClient) | apply (eff_both SubClient)
              | apply (eff_bound PubClient) | apply (eff_bound SubClient)
              | apply (eff_failed_done PubClient) | apply (eff_failed_done SubClient)
              | apply (eff_failed_failed PubClient) | apply (eff_failed_failed SubClient)
              | apply (eff_done_failed PubClient) | apply (eff_done_failed SubClient) ] ].
Qed.

(** Whatever is delivered after an effective sequence, the process is
    where an effective extension of that sequence takes it. *)
Lemma run_extends app t0 evs :
  effective t0 →
  ∃ t, effective t ∧ t0 `prefix_of` t
       ∧ run (run (started app) t0) evs = run (started app) t.
Proof.
  intros Ht0. induction evs as [|ev evs IH] using rev_ind.
  - exists t0. by repeat split.
  - destruct IH as (t & Ht & Hpre & Hrun).
    unfold run in *. rewrite foldl_snoc, Hrun.
    destruct (effective_step app t ev Ht) as [Hsame | Heff].
    + exists t. unfold run in Hsame. by rewrite Hsame.
    + exists (t ++ [ev]). rewrite foldl_snoc.
      repeat split; [exact Heff | by apply prefix_app_r].
Qed.

Lemma reachable_effective app evs :
  ∃ t, effective t ∧ run (started app) evs = run (started app) t.
Proof.
  destruct (run_extends app [] evs eff_suspended) as (t & Ht & _ & Hrun).
  exists t. by split.
Qed.

(** *** Histories *)

Lemma synchronousPart_setup : Forall is_setup synchronousPart.
Proof.
  unfold synchronousPart. apply Forall_app. split.
  - apply Forall_fmap, Forall_true. done.
  - repeat constructor.
Qed.

Lemma not_in_synchronousPart i : ¬ is_setup i → i ∉ synchronousPart.
Proof.
  intros Hn Hin. apply Hn.
  exact (proj1 (Forall_forall _ _) synchronousPart_setup i Hin).
Qed.

(** An item that occurs once in a list splits it in one way only. *)
Lemma split_unique {T} (b : T) (A B rest pre post : list T) :
  b ∉ A → b ∉ B → b ∉ rest →
  A ++ (B ++ b :: rest) = pre ++ b :: post →
  pre = A ++ B ∧ post = rest.
Proof.
  rewrite app_assoc. intros HA HB Hrest.
  assert (HAB : b ∉ A ++ B) by (by apply not_elem_of_app).
  clear HA HB. revert pre HAB.
  induction (A ++ B) as [|a l IH]; intros pre Hl Heq.
  - destruct pre as [|p pre]; simplify_eq/=; [done|].
    exfalso. apply Hrest. apply elem_of_app. right. left.
  - destruct pre as [|p pre]; simplify_eq/=.
    + exfalso. apply Hl. left.
    + apply not_elem_of_cons in Hl as [_ Hl].
      destruct (IH pre Hl) as [-> ->]; done.
Qed.

Ltac effective_cases Ht :=
  destruct Ht as [|c|c|c|c e|c e|c e e'|c e]; try destruct c;
  world_compute; rewrite <- ?app_assoc; cbn [List.app].

Ltac not_in_list H :=
  repeat (apply elem_of_cons in H as [H|H]; [discriminate H|]);
  by apply elem_of_nil in H.

Lemma split_occurs {T} (b : T) (l pre post : list T) :
  l = pre ++ b :: post → b ∈ l.
Proof. intros ->. apply elem_of_app. right. left. Qed.

(** Closes a goal from [Hin : b ∈ h] when [h] is the synchronous part
    followed by listed items and [b] is none of them. *)
Ltac absent_sync Hin :=
  match type of Hin with
  | ?b ∈ _ => exact (not_in_synchronousPart b (fun x : is_setup b => (x : False)) Hin)
  end.

Ltac absent Hin :=
  exfalso;
  first
    [ absent_sync Hin
    | apply elem_of_app in Hin as [Hin|Hin];
      [ absent_sync Hin | not_in_list Hin ]
    | not_in_list Hin ].

Ltac in_list :=
  repeat first [ apply list_elem_of_here | apply list_elem_of_further ].

Ltac in_history := apply elem_of_app; right; in_list.

Ltac not_in_history := let Hin := fresh "Hin" in intros Hin; absent Hin.

(** *** The broker bridge *)

(** C3: in every run of the process, the adapter is constructed only
    after both connect promises have resolved: whatever precedes
    [createAdapter] in the history is what [start] did before suspending,
    followed by the two completions and nothing else (the program does
    nothing, in particular asks nothing, while it waits); the adapter is
    installed in the Socket.IO server only after that. *)
Theorem adapter_after_both_connected (app : Application) (evs : list event)
    (pre post : list item) :
  history (run (started app) evs) = pre ++ Did CreateAdapter :: post →
  Got (ConnectDone PubClient) ∈ pre
  ∧ Got (ConnectDone SubClient) ∈ pre
  ∧ (∃ c, pre = synchronousPart ++ [Got (ConnectDone c); Got (ConnectDone (other c))])
  ∧ (∀ c, Did (Poll c) ∉ pre)
  ∧ (Did SetAdapter ∉ pre)
  ∧ (∃ post', post = Did SetAdapter :: post')
  ∧ io_adapter <$> socketIO (run (started app) evs)
    = Some (Some (RedisAdapter PubClient SubClient)).
Proof.
  destruct (reachable_effective app evs) as (t & Ht & ->).
  effective_cases Ht; intros H;
    try (apply split_occurs in H; absent H);
    match type of H with
    | ?A ++ (?x :: ?y :: ?b :: ?rest) = _ =>
        apply (split_unique b A [x; y] rest pre post) in H as [-> ->];
          [|not_in_history..]
    end;
    (split; [in_history|]); (split; [in_history|]);
    (split; [first [by exists PubClient | by exists SubClient]|]);
    (split; [intros ?; not_in_history|]);
    (split; [not_in_history|]);
    (split; [by eexists|]); reflexivity.
Qed.

(** *** Start-up failure *)

Lemma connectCalls_app c h1 h2 :
  connectCalls c (h1 ++ h2) = (connectCalls c h1 + connectCalls c h2)%nat.
Proof.
  induction h1 as [|i h1 IH]; [reflexivity|].
  destruct i as [[]|]; cbn [List.app connectCalls]; rewrite IH; lia.
Qed.

Lemma connectCalls_synchronousPart c : connectCalls c synchronousPart = 1%nat.
Proof.
  unfold synchronousPart. rewrite connectCalls_app.
  assert (Hnone : ∀ ls, connectCalls c (map (fun l => Did (AppUse (layer_name l))) ls) = 0%nat).
  { induction ls as [|l ls IH]; [reflexivity|exact IH]. }
  rewrite Hnone. by destruct c.
Qed.

(** Where the process is once a connect promise has rejected under the
    pending [await]. *)
Lemma failed_world app t c e :
  effective t →
  (∃ k, t = ConnectFailed c e :: k) ∨ (∃ c0 k, t = ConnectDone c0 :: ConnectFailed c e :: k) →
  let w := run (started app) t in
  control_state w = Caught
  ∧ Did (WriteLog (LogError e)) ∈ history w
  ∧ (∀ port, Did (Listen port) ∉ history w)
  ∧ listening w = Closed
  ∧ (Did CreateAdapter ∉ history w)
  ∧ (∀ code, Did (ProcessExit code) ∉ history w)
  ∧ (∀ c', connectCalls c' (history w) = 1%nat).
Proof.
  intros Ht Hshape.
  destruct Ht as [|c1|c1|c1|c1 e1|c1 e1|c1 e1 e1'|c1 e1];
    destruct Hshape as [(k & Hk) | (c0 & k & Hk)]; simplify_eq/=;
    repeat match goal with x : client |- _ => destruct x end;
    try discriminate;
    world_compute; rewrite <- ?app_assoc; cbn [List.app];
    (split; [reflexivity|]); (split; [in_history|]);
    (split; [intros ?; not_in_history|]); (split; [reflexivity|]);
    (split; [not_in_history|]); (split; [intros ?; not_in_history|]);
    intros c'; rewrite connectCalls_app, connectCalls_synchronousPart;
    reflexivity.
Qed.

(** C4: when a connect promise rejects while [startServer] is suspended
    on the two connections, the [catch] block logs the error and nothing
    else happens, whatever is delivered afterwards: the server never
    calls [listen], the adapter is never built, the process does not
    exit, and [connect()] is not called again. *)
Theorem broker_failure_logged_not_listening (app : Application)
    (before after : list event) (c : client) (e : thrown) :
  control_state (run (started app) before) = AwaitingAll →
  connect_promise c (run (started app) before) = Some Pending →
  control_state (run (started app) (before ++ ConnectFailed c e :: after)) = Caught
  ∧ Did (WriteLog (LogError e))
      ∈ history (run (started app) (before ++ ConnectFailed c e :: after))
  ∧ (∀ port, Did (Listen port)
               ∉ history (run (started app) (before ++ ConnectFailed c e :: after)))
  ∧ listening (run (started app) (before ++ ConnectFailed c e :: after)) = Closed
  ∧ (Did CreateAdapter
       ∉ history (run (started app) (before ++ ConnectFailed c e :: after)))
  ∧ (∀ code, Did (ProcessExit code)
               ∉ history (run (started app) (before ++ ConnectFailed c e :: after)))
  ∧ (∀ c', connectCalls c'
             (history (run (started app) (before ++ ConnectFailed c e :: after)))
           = 1%nat).
Proof.
  intros Hawait Hpending.
  destruct (reachable_effective app before) as (t1 & Ht1 & Hrun1).
  rewrite Hrun1 in Hawait, Hpending.
  assert (Ht0 : effective (t1 ++ [ConnectFailed c e])
                ∧ ((∃ k, t1 ++ [ConnectFailed c e] = ConnectFailed c e :: k)
                   ∨ (∃ c0 k, t1 ++ [ConnectFailed c e]
                              = ConnectDone c0 :: ConnectFailed c e :: k))).
  { revert Hawait Hpending.
    destruct Ht1 as [|c1|c1|c1|c1 e1|c1 e1|c1 e1 e1'|c1 e1];
      try destruct c1; destruct c; world_compute; intros; try discriminate;
      cbn [List.app];
      (split;
       [ first [ apply eff_failed
               | apply (eff_done_failed PubClient)
               | apply (eff_done_failed SubClient) ]
       | first [ left; by eexists | right; by do 2 eexists ] ]). }
  destruct Ht0 as [Ht0 Hshape0].
  destruct (run_extends app _ after Ht0) as (t & Ht & [k Hk] & Hrun).
  assert (Hall : run (started app) (before ++ ConnectFailed c e :: after)
                 = run (started app) t).
  { rewrite <- Hrun. unfold run.
    rewrite foldl_app. cbn [foldl]. rewrite foldl_snoc.
    fold (run (started app) before). fold (run (started app) t1).
    by rewrite Hrun1. }
  rewrite Hall. apply (failed_world app t c e Ht).
  destruct Hshape0 as [(k0 & Hk0) | (c0 & k0 & Hk0)]; rewrite Hk, Hk0.
  - left. by eexists.
  - right. by do 2 eexists.
Qed.

(** *** The bootstrap sequence *)

(** The first item with a property splits a list in one way only. *)
Lemma split_first {T} (P : T → Prop) (A B rest pre post : list T) (b b' : T) :
  (∀ x, x ∈ A → ¬ P x) → (∀ x, x ∈ B → ¬ P x) → (∀ x, x ∈ rest → ¬ P x) →
  P b' →
  A ++ (B ++ b :: rest) = pre ++ b' :: post →
  pre = A ++ B ∧ b' = b ∧ post = rest.
Proof.
  rewrite app_assoc. intros HA HB Hrest Hb'.
  assert (HAB : ∀ x, x ∈ A ++ B → ¬ P x).
  { intros x [Hx|Hx]%elem_of_app; eauto. }
  clear HA HB. revert pre HAB.
  induction (A ++ B) as [|a l IH]; intros pre Hl Heq.
  - destruct pre as [|p pre]; simplify_eq/=; [done|].
    exfalso. apply (Hrest b'); [|exact Hb']. apply elem_of_app. right. left.
  - destruct pre as [|p pre]; simplify_eq/=.
    + exfalso. apply (Hl b'); [left|exact Hb'].
    + destruct (IH pre) as (-> & -> & ->); [|done..].
      intros x Hx. apply Hl. by right.
Qed.

(** C7: [start] installs the security layers, then the request layers,
    then the routes, then the error boundary, and only then creates the
    HTTP server over the complete stack and begins the gateway start-up;
    it returns suspended and not listening.  In every run, [listen] is
    called on the fixed port only after both connections completed and
    the adapter was installed. *)
Theorem start_stages_in_order (app : Application) (evs : list event)
    (pre post : list item) (port : Z) :
  history (run (started app) evs) = pre ++ Did (Listen port) :: post →
  application (securityMiddleware (idle app)) = app ++ securityLayers
  ∧ application (standarMiddleware (securityMiddleware (idle app)))
    = app ++ securityLayers ++ standardLayers
  ∧ application (routesMiddleware (standarMiddleware (securityMiddleware (idle app))))
    = app ++ securityLayers ++ standardLayers ++ routeLayers
  ∧ application (globalErrorHandler (routesMiddleware
                   (standarMiddleware (securityMiddleware (idle app)))))
    = app ++ securityLayers ++ standardLayers ++ routeLayers ++ errorBoundaryLayers
  ∧ httpServer (started app)
    = Some (app ++ securityLayers ++ standardLayers ++ routeLayers
              ++ errorBoundaryLayers)
  ∧ history (started app)
    = map (fun l => Did (AppUse (layer_name l)))
        (securityLayers ++ standardLayers ++ routeLayers ++ errorBoundaryLayers)
      ++ [Did NewHttpServer; Did (NewSocketServer socketCors);
          Did (CreateClient (REDIS_HOST config)); Did Duplicate;
          Did (Connect PubClient); Did (Connect SubClient)]
  ∧ control_state (started app) = AwaitingAll
  ∧ listening (started app) = Closed
  ∧ port = SERVER_PORT
  ∧ (∃ c, pre = history (started app)
                ++ [Got (ConnectDone c); Got (ConnectDone (other c));
                    Did CreateAdapter; Did SetAdapter;
                    Did (WriteLog (LogInfo ("Server started with process "
                                            +:+ pretty pid)))])
  ∧ Got (ConnectDone PubClient) ∈ pre
  ∧ Got (ConnectDone SubClient) ∈ pre
  ∧ Did SetAdapter ∈ pre.
Proof.
  intros H.
  assert (Hsec : application (securityMiddleware (idle app)) = app ++ securityLayers).
  { unfold securityMiddleware. rewrite !application_app_use.
    cbn [application idle]. by rewrite <- !app_assoc. }
  assert (Hstd : application (standarMiddleware (securityMiddleware (idle app)))
                 = app ++ securityLayers ++ standardLayers).
  { unfold standarMiddleware. rewrite !application_app_use, Hsec.
    by rewrite <- !app_assoc. }
  assert (Hroutes : application (routesMiddleware
                      (standarMiddleware (securityMiddleware (idle app))))
                    = app ++ securityLayers ++ standardLayers ++ routeLayers).
  { unfold routesMiddleware. rewrite application_foldl_routes, Hstd.
    by rewrite <- !app_assoc. }
  split; [exact Hsec|]. split; [exact Hstd|]. split; [exact Hroutes|].
  split.
  { unfold globalErrorHandler. rewrite !application_app_use, Hroutes.
    by rewrite <- !app_assoc. }
  split; [by rewrite started_world|].
  split; [by rewrite started_world|].
  split; [by rewrite started_world|].
  split; [by rewrite started_world|].
  revert H.
  destruct (reachable_effective app evs) as (t & Ht & ->).
  replace (history (started app)) with synchronousPart by (by rewrite started_world).
  effective_cases Ht; intros H;
    try (apply split_occurs in H; absent H);
    match type of H with
    | ?A ++ (?x :: ?y :: ?z :: ?u :: ?v :: ?b :: ?rest) = _ =>
        apply (split_first (fun i => ∃ p, i = Did (Listen p))
                 A [x; y; z; u; v] rest pre post b) in H as (-> & Hport & ->);
          [ injection Hport as ->
          | intros i Hin [p ->]; absent Hin ..
          | by eexists ]
    end;
    (split; [reflexivity|]);
    (split; [first [by exists PubClient | by exists SubClient]|]);
    (split; [in_history|]); (split; [in_history|]); in_history.
Qed.

(** *** The gateway connection step *)

(** C9: [socketIOConnections] leaves the process as it is, and in no run
    of the process is a listener registered on the Socket.IO server. *)
Theorem socketIOConnections_no_effect (app : Application) (evs : list event) :
  (∀ io w, socketIOConnections io w = w)
  ∧ (∀ name, Did (On name) ∉ history (run (started app) evs))
  ∧ io_listeners <$> socketIO (run (started app) evs) = Some [].
Proof.
  split; [reflexivity|].
  destruct (reachable_effective app evs) as (t & Ht & ->).
  effective_cases Ht; (split; [intros ?; not_in_history|reflexivity]).
Qed.

(** *** More on the gateway start-up *)

Lemma occurrences_app p h1 h2 :
  occurrences p (h1 ++ h2) = (occurrences p h1 + occurrences p h2)%nat.
Proof.
  induction h1 as [|i h1 IH]; [reflexivity|].
  cbn [List.app occurrences]. rewrite IH. lia.
Qed.

Lemma occurrences_synchronousPart p :
  (∀ n, p (Did (AppUse n)) = false) →
  occurrences p synchronousPart
  = occurrences p [Did NewHttpServer; Did (NewSocketServer socketCors);
                   Did (CreateClient (REDIS_HOST config)); Did Duplicate;
                   Did (Connect PubClient); Did (Connect SubClient)].
Proof.
  intros Hp. unfold synchronousPart. rewrite occurrences_app.
  assert (Hnone : ∀ ls, occurrences p (map (fun l => Did (AppUse (layer_name l))) ls) = 0%nat).
  { induction ls as [|l ls IH]; [reflexivity|].
    cbn [map occurrences]. by rewrite Hp, IH. }
  by rewrite Hnone.
Qed.

Ltac count_history :=
  rewrite ?occurrences_app, ?connectCalls_app,
    ?connectCalls_synchronousPart,
    ?occurrences_synchronousPart by (intros; reflexivity);
  cbn; first [reflexivity | lia].

(** Settles a goal built from equations, memberships in an explicit
    history, conjunctions and equivalences. *)
Ltac settle_history :=
  repeat match goal with
         | |- _ ∧ _ => split
         | |- _ ↔ _ => split
         | |- _ → _ => intros ?
         | H : _ ∧ _ |- _ => destruct H
         end;
  first [ reflexivity
        | discriminate
        | solve [in_history]
        | match goal with H : _ ∈ _ |- _ => absent H end
        | match goal with H : ?a ≠ ?a |- _ => by destruct H end
        | done ].

(** X1: start-up succeeds exactly when both connections complete: in every
    run the [try] block of [startServer] has run to its end if and only if
    both completions were delivered, if and only if the adapter is
    installed, if and only if [listen] was called on the fixed port. *)
Theorem started_iff_both_connected (app : Application) (evs : list event) :
  (Got (ConnectDone PubClient) ∈ history (run (started app) evs)
   ∧ Got (ConnectDone SubClient) ∈ history (run (started app) evs)
   ↔ control_state (run (started app) evs) = Returned)
  ∧ (control_state (run (started app) evs) = Returned
     ↔ io_adapter <$> socketIO (run (started app) evs)
       = Some (Some (RedisAdapter PubClient SubClient)))
  ∧ (control_state (run (started app) evs) = Returned
     ↔ Did (Listen SERVER_PORT) ∈ history (run (started app) evs))
  ∧ (control_state (run (started app) evs) = Returned
     ↔ listening (run (started app) evs) ≠ Closed).
Proof.
  destruct (reachable_effective app evs) as (t & Ht & ->).
  effective_cases Ht; settle_history.
Qed.

(** X2: in every run each start-up action is performed once at most, whatever
    the event loop delivers: one HTTP server and one Socket.IO server are
    created, [connect()] is called once on each client, the adapter is built
    and [listen] is called at most once, and only on the fixed port; the
    application keeps the stack [start] installed, and the HTTP server
    serves that stack. *)
Theorem startup_actions_once (app : Application) (evs : list event) :
  (∀ c, connectCalls c (history (run (started app) evs)) = 1%nat)
  ∧ occurrences is_new_http (history (run (started app) evs)) = 1%nat
  ∧ occurrences is_new_socket (history (run (started app) evs)) = 1%nat
  ∧ (occurrences is_create_adapter (history (run (started app) evs)) ≤ 1)%nat
  ∧ (occurrences is_listen (history (run (started app) evs)) ≤ 1)%nat
  ∧ (∀ port, Did (Listen port) ∈ history (run (started app) evs) → port = SERVER_PORT)
  ∧ application (run (started app) evs)
    = app ++ securityLayers ++ standardLayers ++ routeLayers ++ errorBoundaryLayers
  ∧ httpServer (run (started app) evs) = Some (application (run (started app) evs)).
Proof.
  destruct (reachable_effective app evs) as (t & Ht & ->).
  effective_cases Ht;
    (split; [intros ?; count_history|]);
    (split; [count_history|]); (split; [count_history|]);
    (split; [count_history|]); (split; [count_history|]);
    (split; [|split; reflexivity]);
    intros port H;
    first
      [ exfalso; absent_sync H
      | apply elem_of_app in H as [H|H]; [exfalso; absent_sync H|];
        repeat (apply elem_of_cons in H as [H|H];
                [first [discriminate H | by injection H]|]);
        by apply elem_of_nil in H ].
Qed.

(** X3: at most one error is ever logged by [startServer]: the [catch] block
    runs once at most.  An error is logged exactly when the start-up was
    caught, it is the first connection failure delivered, and it is logged
    as soon as that failure arrives; a later failure of the other
    connection leaves no entry. *)
Theorem startup_error_logged_once (app : Application) (evs : list event) :
  (occurrences is_error_log (history (run (started app) evs)) ≤ 1)%nat
  ∧ (occurrences is_error_log (history (run (started app) evs)) = 1%nat
     ↔ control_state (run (started app) evs) = Caught)
  ∧ (∀ e, Did (WriteLog (LogError e)) ∈ history (run (started app) evs) →
       ∃ c pre post,
         history (run (started app) evs)
         = pre ++ Got (ConnectFailed c e) :: Did (WriteLog (LogError e)) :: post
         ∧ ∀ c' e', Got (ConnectFailed c' e') ∉ pre).
Proof.
  destruct (reachable_effective app evs) as (t & Ht & ->).
  effective_cases Ht;
    (split; [count_history|]);
    (split; [split; intros H; first [reflexivity | count_history | discriminate H
                                    | exfalso; revert H; count_history]|]);
    intros e0 H;
    first
      [ exfalso; absent_sync H
      | apply elem_of_app in H as [H|H]; [exfalso; absent_sync H|];
        repeat (apply elem_of_cons in H as [H|H];
                [first [discriminate H | injection H as ->]|]);
        first
          [ by apply elem_of_nil in H
          | eexists _, synchronousPart, _;
            split; [reflexivity|intros ? ?; not_in_history]
          | eexists _, (synchronousPart ++ [_]), _;
            split; [rewrite <- app_assoc; reflexivity|intros ? ?; not_in_history] ] ].
Qed.

Ltac not_in_list_c H :=
  repeat (apply elem_of_cons in H as [H|H]; [congruence|]);
  by apply elem_of_nil in H.

Ltac absent_c Hin :=
  exfalso;
  first
    [ absent_sync Hin
    | apply elem_of_app in Hin as [Hin|Hin];
      [ absent_sync Hin | not_in_list_c Hin ]
    | not_in_list_c Hin ].

Lemma messages_differ : startedMessage ≠ runningMessage.
Proof. unfold startedMessage, runningMessage. cbn [String.append]. discriminate. Qed.

(** X4: the two messages of [startHttpServer]: the process identifier is
    logged exactly when start-up succeeded, and before [listen] is called;
    the port is logged exactly when the 'listening' event was delivered to
    a server that called [listen], which is exactly when the acceptor is
    bound, and never before [listen]. *)
Theorem listening_messages (app : Application) (evs : list event) :
  (Did (WriteLog (LogInfo startedMessage)) ∈ history (run (started app) evs)
   ↔ control_state (run (started app) evs) = Returned)
  ∧ (Did (WriteLog (LogInfo runningMessage)) ∈ history (run (started app) evs)
     ↔ Got HttpListening ∈ history (run (started app) evs))
  ∧ (Got HttpListening ∈ history (run (started app) evs)
     ↔ listening (run (started app) evs) = Bound SERVER_PORT)
  ∧ (∀ pre post,
       history (run (started app) evs) = pre ++ Did (Listen SERVER_PORT) :: post →
       Did (WriteLog (LogInfo startedMessage)) ∈ pre
       ∧ (Did (WriteLog (LogInfo runningMessage)) ∉ pre)
       ∧ (Got HttpListening ∉ pre)).
Proof.
  pose proof messages_differ as Hdiff.
  assert (Hdiff' : runningMessage ≠ startedMessage) by congruence.
  destruct (reachable_effective app evs) as (t & Ht & ->).
  fold startedMessage runningMessage.
  effective_cases Ht; fold startedMessage runningMessage;
    (split; [split; intros H;
             first [reflexivity | discriminate H | solve [in_history] | absent H]|]);
    (split; [split; intros H; first [solve [in_history] | absent_c H | absent H]|]);
    (split; [split; intros H;
             first [reflexivity | discriminate H | solve [in_history] | absent H]|]);
    intros pre post H;
    first
      [ apply split_occurs in H; absent H
      | match type of H with
        | ?A ++ (?x :: ?y :: ?z :: ?u :: ?v :: ?b :: ?rest) = _ =>
            apply (split_unique b A [x; y; z; u; v] rest pre post) in H as [-> ->];
              [|not_in_history..]
        end;
        (split; [in_history|]);
        split; intros H; first [absent_c H | absent H] ].
Qed.

(** *** More on the request pipeline *)


Lemma firstMatch_none rs r :
  firstMatch rs r = None ↔ ∀ rt, rt ∈ rs → routeMatches rt r = false.
Proof.
  induction rs as [|rt0 rs IH]; cbn [firstMatch].
  - split; [intros _ rt Hin; by apply elem_of_nil in Hin|done].
  - destruct (routeMatches rt0 r) eqn:Hm.
    + split; [discriminate|]. intros H. rewrite (H rt0) in Hm by left. discriminate.
    + rewrite IH. split.
      * intros H rt [->|Hin]%elem_of_cons; [exact Hm|by apply H].
      * intros H rt Hin. apply H. by right.
Qed.



Lemma bodyParser_res accepts limit x : res (bodyParser accepts limit x).1 = res x.
Proof.
  unfold bodyParser.
  repeat match goal with
         | |- context [if ?b then _ else _] => destruct b
         | |- context [match ?o with Some _ => _ | None => _ end] => destruct o
         end; reflexivity.
Qed.

(** The request stage never touches the response. *)
Lemma standard_stage_res err x :
  res (final (dispatch standardLayers err x)) = res x.
Proof.
  destruct err as [e|]; [reflexivity|].
  unfold standardLayers. cbn [dispatch layer_applies run_layer layer_name].
  pose proof (bodyParser_res isJson (json_limit {| json_limit := "50mb" |})
                (enter NJson (enter NCompression x))) as H1.
  destruct (bodyParser isJson _ _) as [y1 []]; cbn [fst] in H1; try exact H1.
  pose proof (bodyParser_res isUrlencoded
                (urlencoded_limit {| urlencoded_extended := true;
                                     urlencoded_limit := "50mb" |})
                (enter NUrlencoded y1)) as H2.
  destruct (bodyParser isUrlencoded _ _) as [y2 []]; cbn [fst] in H2;
    cbn [final]; by rewrite H2.
Qed.

(** From the route table on, the two cross-origin headers stay as they
    are unless a route handler writes the response itself. *)
Lemma routes_keep_headers (o : string) rs err x :
  header "Access-Control-Allow-Origin" x = Some o →
  header "Access-Control-Allow-Credentials" x = Some "true" →
  last (entered (final (dispatch (map Route rs ++ errorBoundaryLayers) err x)))
    = Some NRoute
  ∨ (header "Access-Control-Allow-Origin"
       (final (dispatch (map Route rs ++ errorBoundaryLayers) err x)) = Some o
     ∧ header "Access-Control-Allow-Credentials"
         (final (dispatch (map Route rs ++ errorBoundaryLayers) err x)) = Some "true").
Proof.
  revert err x. induction rs as [|rt rs IH]; intros err x Ho Hc.
  - right. cbn [map List.app]. destruct err as [[e|name detail st]|].
    + rewrite errorBoundary_error. unfold header in *. cbn.
      by rewrite !lookup_insert_ne.
    + rewrite errorBoundary_error. by cbn.
    + rewrite errorBoundary_not_found. unfold header in *. cbn.
      by rewrite !lookup_insert_ne.
  - cbn [map List.app dispatch]. destruct err as [e|]; [by apply IH|].
    cbn [layer_applies]. destruct (routeMatches rt (req x)); [|by apply IH].
    cbn [run_layer layer_name enter req res].
    destruct (routeHandler rt (req x) (res x)) as [r'|e].
    + left. cbn. apply last_snoc.
    + by apply IH.
Qed.

(** X7: with an origin configured, every exchange leaves the server with that
    origin as the allowed origin and with credentials allowed, unless a
    route handler wrote the response itself: preflight answers, 404
    answers and the answers to operational errors all carry the two
    headers, because the [cors] layer is installed before the routes and
    the error boundary. *)
Theorem cors_headers_on_own_responses (o : string) (r : Request) :
  CLIENT_URL config = Some o → o ≠ "" → o ≠ "*" →
  last (entered (final (serve r))) ≠ Some NRoute →
  header "Access-Control-Allow-Origin" (final (serve r)) = Some o
  ∧ header "Access-Control-Allow-Credentials" (final (serve r)) = Some "true".
Proof.
  intros Hurl Hne Hstar.
  assert (Hen : Cors.enabled corsOptions = true).
  { unfold Cors.enabled, corsOptions. cbn [cors_origin]. rewrite Hurl.
    apply String.eqb_neq in Hne. by rewrite Hne. }
  unfold serve. rewrite application_started, dispatch_app.
  destruct (Cors.answers corsOptions (req (arrive r))) eqn:Hans.
  - rewrite security_stage_preflight by exact Hans. intros _.
    unfold header. cbn [final res].
    by destruct (preflight_headers o
                   (setSessionOptions cookieSessionOptions (req (arrive r)))
                   (helmet (res (arrive r))) Hurl Hne Hstar) as (_ & _ & ? & ? & _).
  - rewrite security_stage_pass by exact Hans. rewrite Hen, dispatch_app.
    match goal with
    | |- context [dispatch standardLayers None ?x1] =>
        pose proof (standard_stage_res None x1) as Hres;
        destruct (cors_origin_headers o (helmet (res (arrive r))) Hurl Hne Hstar)
          as (Ho & Hc & _);
        destruct (dispatch standardLayers None x1) as [y|err y]
    end; cbn [final res] in Hres.
    + intros _. unfold header. cbn [final]. by rewrite Hres.
    + intros Hlast.
      destruct (routes_keep_headers o applicationRoutes err y) as [Hroute|Hok];
        unfold header; rewrite ?Hres; try done.
Qed.

(** Setting headers leaves status, body and the finished flag alone. *)
Lemma helmet_payload r :
  statusCode (helmet r) = statusCode r
  ∧ body (helmet r) = body r
  ∧ finished (helmet r) = finished r.
Proof.
  unfold helmet. revert r.
  induction helmetDefaults as [|kv hs IH]; intros r; [done|].
  cbn [foldl]. destruct (IH (setHeader kv.1 kv.2 r)) as (-> & -> & ->). done.
Qed.

Lemma cors_pass_payload r :
  statusCode (Cors.configureCredentials corsOptions (Cors.configureOrigin corsOptions r))
    = statusCode r
  ∧ body (Cors.configureCredentials corsOptions (Cors.configureOrigin corsOptions r))
    = body r
  ∧ finished (Cors.configureCredentials corsOptions (Cors.configureOrigin corsOptions r))
    = finished r.
Proof.
  unfold Cors.configureCredentials, Cors.configureOrigin, Cors.vary.
  cbn [corsOptions cors_credentials cors_origin].
  repeat match goal with
         | |- context [if ?b then _ else _] => destruct b
         | |- context [match ?o with Some _ => _ | None => _ end] => destruct o
         end; done.
Qed.

(** X8: what a route handler can rely on.  A request that the security and
    request stages hand on to the route table is not a preflight the [cors]
    layer answers, has the session options attached, keeps its method, URL
    and entity, has its JSON or URL-encoded entity (of at most 50mb) read,
    and comes with a response on which nothing but headers has been set and
    with nothing logged. *)
Theorem route_table_contract (r : Request) (x : Exchange) :
  dispatch (application (standarMiddleware (securityMiddleware (idle []))))
    None (arrive r) = Unhandled None x →
  Cors.answers corsOptions r = false
  ∧ sessionOptions (req x) = Some cookieSessionOptions
  ∧ method (req x) = method r
  ∧ originalUrl (req x) = originalUrl r
  ∧ entity (req x) = entity r
  ∧ (∀ e, entity r = Some e →
       isJson (entityType e) || isUrlencoded (entityType e) = true →
       bodyParsed (req x) = true ∧ (entityLength e ≤ 50 * 1024 * 1024)%N)
  ∧ statusCode (res x) = 200
  ∧ body (res x) = None
  ∧ finished (res x) = false
  ∧ log x = []
  ∧ entered x = [NCookieSession; NHpp; NHelmet; NCors;
                 NCompression; NJson; NUrlencoded].
Proof.
  rewrite guard_stack, dispatch_app.
  destruct (Cors.answers corsOptions (req (arrive r))) eqn:Hans.
  { rewrite security_stage_preflight by exact Hans. discriminate. }
  rewrite security_stage_pass by exact Hans.
  intros H. split; [exact Hans|]. revert H.
  remember (if Cors.enabled corsOptions
            then Cors.configureCredentials corsOptions
                   (Cors.configureOrigin corsOptions (helmet (res (arrive r))))
            else helmet (res (arrive r))) as r0 eqn:Hr0.
  assert (Hpay : statusCode r0 = 200 ∧ body r0 = None ∧ finished r0 = false).
  { subst r0.
    destruct (helmet_payload (res (arrive r))) as (Hs & Hb & Hf).
    destruct (cors_pass_payload (helmet (res (arrive r)))) as (Hs' & Hb' & Hf').
    destruct (Cors.enabled corsOptions); [rewrite Hs', Hb', Hf'|]; by rewrite Hs, Hb, Hf. }
  clear Hr0 Hans. destruct Hpay as (Hs & Hb & Hf).
  unfold standardLayers.
  cbn [dispatch layer_applies run_layer layer_name json_limit urlencoded_limit].
  unfold bodyParser. rewrite limit_50mb.
  remember (50 * 1024 * 1024)%N as lim eqn:Hlim. clear Hlim.
  cbn. destruct (entity r) as [e|]; cbn.
  2:{ intros [= <-]. cbn. repeat split; done. }
  destruct (entityType e) eqn:Ht; cbn;
    try (destruct (lim <? entityLength e)%N eqn:Hlen; cbn);
    rewrite ?Ht; cbn; rewrite ?Hlen; cbn;
    try discriminate;
    intros [= <-]; cbn; repeat split; try done;
    match goal with
    | H : Some _ = Some _, Hty : _ || _ = true |- _ =>
        injection H as <-; rewrite Ht in Hty; cbn in Hty;
        first [discriminate Hty | by apply N.ltb_ge]
    end.
Qed.

(** [helmet()] sets each of its headers; the other headers stay. *)
Lemma helmet_lookup_other k (r : Response) :
  k ∉ helmetDefaults.*1 → resHeaders (helmet r) !! k = resHeaders r !! k.
Proof.
  unfold helmet. revert r.
  induction helmetDefaults as [|[k0 v0] hs IH]; intros r Hk; [reflexivity|].
  cbn [foldl]. cbn in Hk. apply not_elem_of_cons in Hk as [Hne Hk].
  rewrite IH by exact Hk. by apply lookup_setHeader_ne.
Qed.

Lemma helmet_lookup k v (r : Response) :
  NoDup helmetDefaults.*1 → (k, v) ∈ helmetDefaults →
  resHeaders (helmet r) !! k = Some v.
Proof.
  unfold helmet. revert r.
  induction helmetDefaults as [|[k0 v0] hs IH]; intros r Hnd Hin.
  - by apply elem_of_nil in Hin.
  - cbn [foldl]. cbn in Hnd. apply NoDup_cons in Hnd as [Hfresh Hnd].
    apply elem_of_cons in Hin as [[= -> ->]|Hin].
    + change (foldl _ ?r0 hs) with
        (foldl (fun r kv => setHeader kv.1 kv.2 r) r0 hs).
      assert (Hsame : ∀ r0, resHeaders (foldl (fun r kv => setHeader kv.1 kv.2 r) r0 hs) !! k0
                            = resHeaders r0 !! k0).
      { clear -Hfresh. induction hs as [|[k1 v1] hs IH]; intros r0; [reflexivity|].
        cbn [foldl]. cbn in Hfresh. apply not_elem_of_cons in Hfresh as [Hne Hfresh].
        rewrite IH by exact Hfresh. by apply lookup_setHeader_ne. }
      rewrite Hsame. apply lookup_setHeader_eq.
    + by apply IH.
Qed.

Lemma cors_pass_lookup k r :
  k ≠ "Access-Control-Allow-Origin" → k ≠ "Access-Control-Allow-Credentials" →
  k ≠ "Vary" →
  resHeaders (Cors.configureCredentials corsOptions
                (Cors.configureOrigin corsOptions r)) !! k
  = resHeaders r !! k.
Proof.
  intros Ho Hc Hv.
  unfold Cors.configureCredentials, Cors.configureOrigin.
  cbn [corsOptions cors_credentials cors_origin].
  rewrite lookup_setHeader_ne by done.
  destruct (CLIENT_URL config) as [origin|]; [destruct (_ || _)|];
    rewrite ?lookup_vary_ne by done; by rewrite lookup_setHeader_ne.
Qed.

(** From the route table on, a header other than the content type stays
    as it is unless a route handler writes the response itself. *)
Lemma routes_keep_header k v rs err x :
  k ≠ "Content-Type" →
  header k x = Some v →
  last (entered (final (dispatch (map Route rs ++ errorBoundaryLayers) err x)))
    = Some NRoute
  ∨ header k (final (dispatch (map Route rs ++ errorBoundaryLayers) err x)) = Some v.
Proof.
  intros Hk. revert err x. induction rs as [|rt rs IH]; intros err x Hx.
  - right. cbn [map List.app]. destruct err as [[e|name detail st]|].
    + rewrite errorBoundary_error. unfold header in *. cbn.
      by rewrite lookup_insert_ne.
    + rewrite errorBoundary_error. by cbn.
    + rewrite errorBoundary_not_found. unfold header in *. cbn.
      by rewrite lookup_insert_ne.
  - cbn [map List.app dispatch]. destruct err as [e|]; [by apply IH|].
    cbn [layer_applies]. destruct (routeMatches rt (req x)); [|by apply IH].
    cbn [run_layer layer_name enter req res].
    destruct (routeHandler rt (req x) (res x)) as [r'|e].
    + left. cbn. apply last_snoc.
    + by apply IH.
Qed.

(** X9: the headers [helmet()] sets are on every answer the server writes
    itself (preflight answers, 404 answers, answers to operational errors)
    and on every exchange it leaves unanswered: [helmet] is installed
    before the layers that answer, and none of them removes a header. *)
Theorem helmet_headers_on_own_responses (k v : string) (r : Request) :
  NoDup helmetDefaults.*1 →
  (k, v) ∈ helmetDefaults →
  k ∉ ownHeaders →
  last (entered (final (serve r))) ≠ Some NRoute →
  header k (final (serve r)) = Some v.
Proof.
  intros Hnd Hin Hown.
  unfold ownHeaders in Hown.
  repeat (apply not_elem_of_cons in Hown as [? Hown]).
  pose proof (helmet_lookup k v (res (arrive r)) Hnd Hin) as Hhelmet.
  unfold serve. rewrite application_started, dispatch_app.
  destruct (Cors.answers corsOptions (req (arrive r))) eqn:Hans.
  - rewrite security_stage_preflight by exact Hans. intros _.
    unfold header. cbn [final res res_end resHeaders].
    rewrite lookup_setHeader_ne by done. cbn [res_status resHeaders].
    rewrite lookup_configureAllowedHeaders by done.
    unfold Cors.configureMethods. rewrite lookup_setHeader_ne by done.
    by rewrite cors_pass_lookup.
  - rewrite security_stage_pass by exact Hans. rewrite dispatch_app.
    match goal with
    | |- context [dispatch standardLayers None ?x1] =>
        pose proof (standard_stage_res None x1) as Hres;
        assert (Hx1 : header k x1 = Some v);
        [ unfold header; cbn [res];
          destruct (Cors.enabled corsOptions);
          [by rewrite cors_pass_lookup|exact Hhelmet]
        | destruct (dispatch standardLayers None x1) as [y|err y] ]
    end; cbn [final res] in Hres; unfold header in Hx1.
    + intros _. unfold header. cbn [final]. by rewrite Hres.
    + intros Hlast.
      destruct (routes_keep_header k v applicationRoutes err y) as [Hroute|Hok];
        unfold header; rewrite ?Hres; try done.
Qed.

End MediaBookServer.

(** ** The server on the sample deployment *)

(** C1: on the sample deployment a request to [/boom], whose handler throws
    an error that is not a [CustomError], is logged by the error handler
    and then leaves the stack unanswered: nothing is written, the response
    is not ended, and the request is left to the framework's default
    handler. *)
Theorem unclassified_error_left_unanswered :
  ∃ y, serve Sample.config Sample.routes Sample.helmetDefaults
         (Sample.request "GET" "/boom" None) = Unhandled None y
       ∧ log y = [LogError Sample.boom]
       ∧ body (res y) = None
       ∧ finished (res y) = false
       ∧ statusCode (res y) = 200
       ∧ last (entered y) = Some NErrorMiddleware.
Proof. eexists. split; [vm_compute; reflexivity|]. by vm_compute. Qed.


Lemma cross_origin_policy_witness :
  CLIENT_URL Sample.config = Some "http://localhost:3000"
  ∧ ∃ y, serve Sample.config Sample.routes Sample.helmetDefaults
           (Sample.request "OPTIONS" "/posts" None) = Responded y
         ∧ statusCode (res y) = 200
         ∧ finished (res y) = true
         ∧ header "Access-Control-Allow-Origin" y = Some "http://localhost:3000"
         ∧ header "Access-Control-Allow-Credentials" y = Some "true"
         ∧ header "Access-Control-Allow-Methods" y = Some "GET,POST,PUT,DELETE,OPTIONS".
Proof.
  split; [reflexivity|].
  apply (cross_origin_policy Sample.config Sample.routes Sample.helmetDefaults
           "http://localhost:3000"); [reflexivity | discriminate | discriminate |].
  vm_compute. reflexivity.
Defined.


Lemma adapter_after_both_connected_witness :
  history (run Sample.pid (started Sample.config Sample.routes [])
             [ConnectDone SubClient; ConnectDone PubClient])
  = (history (started Sample.config Sample.routes [])
       ++ [Got (ConnectDone SubClient); Got (ConnectDone PubClient)])
    ++ Did CreateAdapter
       :: [Did SetAdapter;
           Did (WriteLog (LogInfo "Server started with process 4242"));
           Did (Listen 5000)]
  ∧ Got (ConnectDone PubClient)
      ∈ history (started Sample.config Sample.routes [])
        ++ [Got (ConnectDone SubClient); Got (ConnectDone PubClient)]
  ∧ Got (ConnectDone SubClient)
      ∈ history (started Sample.config Sample.routes [])
        ++ [Got (ConnectDone SubClient); Got (ConnectDone PubClient)].
Proof.
  split; [vm_compute; reflexivity|].
  destruct (adapter_after_both_connected Sample.config Sample.routes Sample.pid []
              [ConnectDone SubClient; ConnectDone PubClient]
              (history (started Sample.config Sample.routes [])
                 ++ [Got (ConnectDone SubClient); Got (ConnectDone PubClient)])
              [Did SetAdapter;
               Did (WriteLog (LogInfo "Server started with process 4242"));
               Did (Listen 5000)])
    as (Hpub & Hsub & _); [vm_compute; reflexivity|].
  split; [exact Hpub | exact Hsub].
Defined.

Lemma broker_failure_logged_not_listening_witness :
  control_state (run Sample.pid (started Sample.config Sample.routes [])
                   [ConnectDone SubClient]) = AwaitingAll
  ∧ connect_promise PubClient
      (run Sample.pid (started Sample.config Sample.routes [])
         [ConnectDone SubClient]) = Some Pending
  ∧ control_state
      (run Sample.pid (started Sample.config Sample.routes [])
         ([ConnectDone SubClient]
            ++ ConnectFailed PubClient Sample.refused
               :: [ConnectDone PubClient; HttpListening])) = Caught
  ∧ Did (WriteLog (LogError Sample.refused))
      ∈ history
          (run Sample.pid (started Sample.config Sample.routes [])
             ([ConnectDone SubClient]
                ++ ConnectFailed PubClient Sample.refused
                   :: [ConnectDone PubClient; HttpListening]))
  ∧ listening
      (run Sample.pid (started Sample.config Sample.routes [])
         ([ConnectDone SubClient]
            ++ ConnectFailed PubClient Sample.refused
               :: [ConnectDone PubClient; HttpListening])) = Closed.
Proof.
  split; [reflexivity|]. split; [reflexivity|].
  destruct (broker_failure_logged_not_listening Sample.config Sample.routes Sample.pid []
              [ConnectDone SubClient] [ConnectDone PubClient; HttpListening]
              PubClient Sample.refused)
    as (Hcaught & Hlog & _ & Hclosed & _); [reflexivity | reflexivity |].
  split; [exact Hcaught|]. split; [exact Hlog | exact Hclosed].
Defined.

Lemma start_stages_in_order_witness :
  history (run Sample.pid (started Sample.config Sample.routes [])
             [ConnectDone PubClient; ConnectDone SubClient; HttpListening])
  = (history (started Sample.config Sample.routes [])
       ++ [Got (ConnectDone PubClient); Got (ConnectDone SubClient);
           Did CreateAdapter; Did SetAdapter;
           Did (WriteLog (LogInfo "Server started with process 4242"))])
    ++ Did (Listen 5000)
       :: [Got HttpListening;
           Did (WriteLog (LogInfo "Server running on port 5000"))]
  ∧ map layer_name (application (started Sample.config Sample.routes []))
    = [NCookieSession; NHpp; NHelmet; NCors; NCompression; NJson; NUrlencoded;
       NRoute; NRoute; NAll; NErrorMiddleware]
  ∧ control_state (started Sample.config Sample.routes []) = AwaitingAll
  ∧ listening (started Sample.config Sample.routes []) = Closed
  ∧ Did SetAdapter
      ∈ history (started Sample.config Sample.routes [])
        ++ [Got (ConnectDone PubClient); Got (ConnectDone SubClient);
            Did CreateAdapter; Did SetAdapter;
            Did (WriteLog (LogInfo "Server started with process 4242"))].
Proof.
  split; [vm_compute; reflexivity|]. split; [reflexivity|].
  destruct (start_stages_in_order Sample.config Sample.routes Sample.pid []
              [ConnectDone PubClient; ConnectDone SubClient; HttpListening]
              (history (started Sample.config Sample.routes [])
                 ++ [Got (ConnectDone PubClient); Got (ConnectDone SubClient);
                     Did CreateAdapter; Did SetAdapter;
                     Did (WriteLog (LogInfo "Server started with process 4242"))])
              [Got HttpListening;
               Did (WriteLog (LogInfo "Server running on port 5000"))]
              5000)
    as (_ & _ & _ & _ & _ & _ & Hctl & Hlisten & _ & _ & _ & _ & Hset);
    [vm_compute; reflexivity|].
  split; [exact Hctl|]. split; [exact Hlisten | exact Hset].
Defined.


Lemma cors_headers_on_own_responses_witness :
  last (entered (final (serve Sample.config Sample.routes Sample.helmetDefaults
                          (Sample.request "GET" "/nope" None)))) = Some NAll
  ∧ header "Access-Control-Allow-Origin"
      (final (serve Sample.config Sample.routes Sample.helmetDefaults
                (Sample.request "GET" "/nope" None))) = Some "http://localhost:3000"
  ∧ header "Access-Control-Allow-Credentials"
      (final (serve Sample.config Sample.routes Sample.helmetDefaults
                (Sample.request "GET" "/nope" None))) = Some "true".
Proof.
  split; [vm_compute; reflexivity|].
  apply (cors_headers_on_own_responses Sample.config Sample.routes Sample.helmetDefaults
           "http://localhost:3000" (Sample.request "GET" "/nope" None));
    [reflexivity | discriminate | discriminate |].
  vm_compute. discriminate.
Defined.

Lemma route_table_contract_witness :
  ∃ x, dispatch Sample.helmetDefaults
         (application (standarMiddleware (securityMiddleware Sample.config (idle []))))
         None
         (arrive (Sample.request "POST" "/posts" (Some MoreSamples.smallJson)))
       = Unhandled None x
       ∧ sessionOptions (req x) = Some (cookieSessionOptions Sample.config)
       ∧ bodyParsed (req x) = true
       ∧ finished (res x) = false
       ∧ log x = [].
Proof.
  eexists. split; [vm_compute; reflexivity|].
  edestruct (route_table_contract Sample.config Sample.helmetDefaults
               (Sample.request "POST" "/posts" (Some MoreSamples.smallJson)))
    as (_ & Hsession & _ & _ & _ & Hbody & _ & _ & Hfin & Hlog & _);
    [vm_compute; reflexivity|].
  split; [exact Hsession|].
  split; [exact (proj1 (Hbody MoreSamples.smallJson eq_refl eq_refl))|].
  split; [exact Hfin | exact Hlog].
Defined.

Lemma helmet_headers_on_own_responses_witness :
  ("X-Frame-Options", "SAMEORIGIN") ∈ Sample.helmetDefaults
  ∧ header "X-Frame-Options"
      (final (serve Sample.config Sample.routes Sample.helmetDefaults
                (Sample.request "GET" "/nope" None))) = Some "SAMEORIGIN".
Proof.
  assert (Hin : ("X-Frame-Options", "SAMEORIGIN") ∈ Sample.helmetDefaults).
  { apply list_elem_of_further, list_elem_of_here. }
  split; [exact Hin|].
  apply (helmet_headers_on_own_responses Sample.config Sample.routes
           Sample.helmetDefaults "X-Frame-Options" "SAMEORIGIN"
           (Sample.request "GET" "/nope" None)); [| exact Hin | |].
  - repeat (apply NoDup_cons; split;
            [intros H; repeat (apply elem_of_cons in H as [H|H]; [discriminate H|]);
             by apply elem_of_nil in H|]).
    apply NoDup_nil_2.
  - intros H. repeat (apply elem_of_cons in H as [H|H]; [discriminate H|]).
    by apply elem_of_nil in H.
  - vm_compute. discriminate.
Defined.
